(** * gzip-hpp: the buffer drivers around zlib and the signature sniffer

    A shallow embedding of [include/gzip/utils.hpp], [include/gzip/compress.hpp]
    and [include/gzip/decompress.hpp].

    - Buffers ([const char*] + [std::size_t], [std::string],
      [std::vector<uint8_t>]) are [list byte].
    - [std::size_t] is a 64-bit unsigned integer and [unsigned int] a 32-bit
      one; both are [Z] with the wrap-around written out ([wrap64], [wrap32]).
    - zlib is an external library: it is an interface ([Zlib]) whose
      operations are parameters of the development.
    - A call either returns, throws, runs into undefined behaviour or does not
      come back within the given number of loop iterations ([status]); next to
      the status a run records the final state of the output container and
      the sequence of container resizes and codec calls it performed.

    - Whether the macro [DEBUG] is defined is up to the build: it is a
      parameter ([Build]).
    - Whether a container can grow is up to the machine: the free store is a
      parameter ([Heap]), and a [resize] that grows the container leaves by
      an exception when the free store refuses. *)

From Stdlib Require Import String.
From Stdlib Require Import ZArith List Bool Lia.
From Stdlib Require Import Init.Byte.
Import ListNotations.

Local Open Scope Z_scope.

Set Implicit Arguments.

(** ** Machine integers *)

Definition SIZE_MAX : Z := 2 ^ 64 - 1.
Definition UINT_MAX : Z := 2 ^ 32 - 1.
Definition PTRDIFF_MAX : Z := 2 ^ 63 - 1.

(** Arithmetic on [std::size_t]. *)
Definition wrap64 (z : Z) : Z := z mod 2 ^ 64.

(** [static_cast<unsigned int>] and arithmetic on [unsigned int]. *)
Definition wrap32 (z : Z) : Z := z mod 2 ^ 32.

(** [static_cast<uint8_t>(c)] for a [char] holding the byte [b]. *)
Definition uint8_t (b : byte) : Z := Z.of_N (Byte.to_N b).

(** [data[i]] for a pointer to the beginning of a buffer. *)
Definition at_index (data : list byte) (i : nat) : byte := nth i data x00.

(** The size of a container, as a [std::size_t]. *)
Definition size_of (v : list byte) : Z := Z.of_nat (length v).

(** ** utils.hpp *)

(** [is_compressed(const char* data, std::size_t size)] *)
Definition is_compressed (data : list byte) (size : Z) : bool :=
  (2 <? size) &&
  (
    (* zlib *)
    (
      (uint8_t (at_index data 0) =? 0x78) &&
      ((uint8_t (at_index data 1) =? 0x9C) ||
       (uint8_t (at_index data 1) =? 0x01) ||
       (uint8_t (at_index data 1) =? 0xDA) ||
       (uint8_t (at_index data 1) =? 0x5E))) ||
    (* gzip *)
    ((uint8_t (at_index data 0) =? 0x1F) && (uint8_t (at_index data 1) =? 0x8B))).

(** [is_compressed(const std::string& data)] *)
Definition is_compressed_string (data : list byte) : bool :=
  is_compressed data (size_of data).

(** [is_compressed(const std::vector<uint8_t>& binary_data)] *)
Definition is_compressed_vector (binary_data : list byte) : bool :=
  is_compressed binary_data (size_of binary_data).

(** The magic patterns, as the documentation names them. *)
Definition zlib_magic (b0 b1 : byte) : Prop :=
  b0 = x78 /\ (b1 = x9c \/ b1 = x01 \/ b1 = xda \/ b1 = x5e).

Definition gzip_magic (b0 b1 : byte) : Prop :=
  b0 = x1f /\ b1 = x8b.

(** A buffer's first two bytes match a known pattern. *)
Definition starts_with_magic (data : list byte) : Prop :=
  exists b0 b1 rest,
    data = b0 :: b1 :: rest /\ (zlib_magic b0 b1 \/ gzip_magic b0 b1).

(** ** zlib.h: the part of the interface the headers use *)

(** Return codes of the library. *)
Inductive zret : Type :=
| Z_OK | Z_STREAM_END | Z_NEED_DICT
| Z_ERRNO | Z_STREAM_ERROR | Z_DATA_ERROR | Z_MEM_ERROR | Z_BUF_ERROR
| Z_VERSION_ERROR.

Definition zret_eqb (a b : zret) : bool :=
  match a, b with
  | Z_OK, Z_OK | Z_STREAM_END, Z_STREAM_END | Z_NEED_DICT, Z_NEED_DICT
  | Z_ERRNO, Z_ERRNO | Z_STREAM_ERROR, Z_STREAM_ERROR
  | Z_DATA_ERROR, Z_DATA_ERROR | Z_MEM_ERROR, Z_MEM_ERROR
  | Z_BUF_ERROR, Z_BUF_ERROR | Z_VERSION_ERROR, Z_VERSION_ERROR => true
  | _, _ => false
  end.

Definition Z_FINISH : Z := 4.
Definition Z_DEFLATED : Z := 8.
Definition Z_DEFAULT_STRATEGY : Z := 0.
Definition Z_DEFAULT_COMPRESSION : Z := -1.

(** What one call of [deflate] or [inflate] did: its return code, how many
    bytes it read at [next_in], the bytes it stored at [next_out], the error
    message it left in [msg] ([None] is the null pointer) and the internal
    state it left behind. *)
Record step (I : Type) : Type := Step {
  ret : zret;
  consumed : nat;
  produced : list byte;
  step_msg : option string;
  step_state : I
}.

(** The library itself. Both initialisers give [None] for every result other
    than [Z_OK]. A call sees the internal state, the [avail_in] bytes at
    [next_in], the size [avail_out] of the window at [next_out], and the flush
    mode. *)
Class Zlib : Type := {
  deflate_state : Type;
  inflate_state : Type;
  deflateInit2_ : Z -> Z -> Z -> Z -> Z -> option deflate_state;
  deflate_ : deflate_state -> list byte -> Z -> Z -> step deflate_state;
  inflateInit2_ : Z -> option inflate_state;
  inflate_ : inflate_state -> list byte -> Z -> Z -> step inflate_state
}.

(** [z_stream], with the fields the headers read or write. [next_out] is
    kept by the drivers as an offset into the output container. *)
Record z_stream (I : Type) : Type := Z_stream {
  next_in : list byte;
  avail_in : Z;
  avail_out : Z;
  msg : option string;
  state : I
}.

(** The bytes a call may read: [avail_in] bytes at [next_in]. *)
Definition readable {I : Type} (s : z_stream I) : list byte :=
  firstn (Z.to_nat (avail_in s)) (next_in s).

(** How a call updates the stream: both cursors advance, both counters drop
    by what was read and written. *)
Definition advance {I : Type} (s : z_stream I) (r : step I) : z_stream I :=
  {| next_in := skipn (consumed r) (next_in s);
     avail_in := wrap32 (avail_in s - Z.of_nat (consumed r));
     avail_out := wrap32 (avail_out s - size_of (produced r));
     msg := step_msg r;
     state := step_state r |}.

Definition set_avail_out {I : Type} (s : z_stream I) (n : Z) : z_stream I :=
  {| next_in := next_in s; avail_in := avail_in s; avail_out := n;
     msg := msg s; state := state s |}.

Definition set_avail_in {I : Type} (s : z_stream I) (n : Z) : z_stream I :=
  {| next_in := next_in s; avail_in := n; avail_out := avail_out s;
     msg := msg s; state := state s |}.

(** [deflate(&strm, flush)]: return code, stream afterwards, bytes stored at
    [next_out]. *)
Definition deflate {codec : Zlib} (s : z_stream deflate_state) (flush : Z)
  : zret * z_stream deflate_state * list byte :=
  let r := deflate_ (state s) (readable s) (avail_out s) flush in
  (ret r, advance s r, produced r).

(** [inflate(&strm, flush)] *)
Definition inflate {codec : Zlib} (s : z_stream inflate_state) (flush : Z)
  : zret * z_stream inflate_state * list byte :=
  let r := inflate_ (state s) (readable s) (avail_out s) flush in
  (ret r, advance s r, produced r).

(** ** Containers, exceptions, runs *)

(** [v.resize(n)]: keep the first [n] bytes, fill up with zero bytes. *)
Definition resize (n : Z) (v : list byte) : list byte :=
  firstn (Z.to_nat n) v ++ repeat x00 (Z.to_nat n - length v).

(** The containers the two templates are instantiated with. *)
Inductive container : Type :=
| std_string
| std_vector.

(** Whether [v[0]] may be evaluated: a [std::string] has its terminator
    there even when it is empty, a [std::vector] has no element 0 when it is
    empty. *)
Definition has_element0 (kind : container) (v : list byte) : bool :=
  match kind, v with
  | std_vector, [] => false
  | _, _ => true
  end.

(** The effect of the codec storing [bytes] at [&v[0] + off]. *)
Definition store (off : Z) (bytes : list byte) (v : list byte) : list byte :=
  firstn (Z.to_nat off) v ++ bytes ++ skipn (Z.to_nat off + length bytes) v.

Inductive exception : Type :=
| runtime_error (what : string)   (* std::runtime_error(what) *)
| length_error                    (* std::length_error, from [resize] *)
| bad_alloc.                      (* std::bad_alloc, from [resize] *)

(** ** The free store *)

(** The drivers ask the free store for storage where they grow the output
    container. [max_size] is the [max_size()] of the containers;
    [allocates n] says whether the machine has the storage for a container
    grown to [n] bytes. The capacity of a container is not kept: a request
    that the capacity at hand would meet is a request the free store
    grants. The few bytes of an exception and of its message are taken to
    be had. *)
Class Heap : Type := {
  max_size : Z;
  allocates : Z -> bool
}.

(** The exception [v.resize(n)] leaves by, if any: none when the container
    does not grow, [std::length_error] beyond [max_size()],
    [std::bad_alloc] when the storage cannot be had. *)
Definition resize_throws {heap : Heap} (n : Z) (v : list byte)
  : option exception :=
  if n <=? size_of v then None
  else if max_size <? n then Some length_error
  else if allocates n then None
  else Some bad_alloc.

(** A free store that grants every request a container can make. *)
Definition roomy : Heap :=
  {| max_size := PTRDIFF_MAX; allocates := fun _ => true |}.

(** A free store that has room for containers of up to [limit] bytes. *)
Definition heap_of (limit : Z) : Heap :=
  {| max_size := PTRDIFF_MAX; allocates := fun n => n <=? limit |}.

(** The messages of the exceptions the drivers throw on their own account. *)
Definition size_not_unsigned : string :=
  "size arg is too large to fit into unsigned int type".
Definition size_not_unsigned_x2 : string :=
  "size arg is too large to fit into unsigned int type x2".
Definition deflate_init_failed : string := "deflate init failed".
Definition inflate_init_failed : string := "inflate init failed".
Definition size_too_large : string :=
  "size may use more memory than intended when decompressing".
Definition output_too_large : string :=
  "size of output string will use more memory then intended when decompressing".

Inductive status : Type :=
| Returns                  (* the call returned *)
| Throws (e : exception)   (* the call left by an exception *)
| Undefined                (* the call ran into undefined behaviour *)
| OutOfFuel.               (* the loop was still running when the fuel ended *)

(** What a run did to its surroundings, in order. A call of the codec is
    recorded with the window it was offered and the number of bytes it wrote,
    a call of [inflate] also with its return code and the [msg] it left. *)
Inductive event : Type :=
| Ev_deflateInit2 (level : Z) (ok : bool)
| Ev_deflate (window written : Z)
| Ev_deflateEnd
| Ev_inflateInit2 (ok : bool)
| Ev_inflate (window : Z) (r : zret) (m : option string) (written : Z)
| Ev_inflateEnd
| Ev_resize (n : Z).

Record run : Type := Run {
  outcome : status;
  output : list byte;      (* the output container when the run stopped *)
  events : list event
}.

(** The run [r], after the events [evs]. *)
Definition after (evs : list event) (r : run) : run :=
  {| outcome := outcome r; output := output r; events := evs ++ events r |}.

Definition returned (r : run) : option (list byte) :=
  match outcome r with
  | Returns => Some (output r)
  | _ => None
  end.

(** ** The build *)

(** The blocks under [#ifdef DEBUG] are compiled when the build defines the
    macro. *)
Class Build : Type := { DEBUG : bool }.

(** ** compress.hpp *)

Module Compressor.

(** [class Compressor { std::size_t max_; int level_; ... }] *)
Record t : Type := new { level_ : Z; max_ : Z }.

Definition window_bits : Z := 15 + 16. (* gzip with windowbits of 15 *)
Definition mem_level : Z := 8.

(** The [do { ... } while (deflate_s.avail_out == 0)] loop with what follows
    it, from the state at the loop head. [kind] is the type of the output
    container. There is no handler around the loop: an exception of
    [resize] leaves the function as it is, before [deflateEnd]. *)
Fixpoint compress_loop {codec : Zlib} {heap : Heap} (kind : container)
    (fuel : nat) (size : Z) (deflate_s : z_stream deflate_state)
    (output : list byte) (size_compressed : Z) : run :=
  match fuel with
  | O => Run OutOfFuel output []
  | S fuel' =>
    let increase := wrap64 (size / 2 + 1024) in
    let grows := size_of output <? wrap64 (size_compressed + increase) in
    match (if grows
           then resize_throws (wrap64 (size_compressed + increase)) output
           else None) with
    | Some e => Run (Throws e) output []
    | None =>
    let output1 :=
      if grows then resize (wrap64 (size_compressed + increase)) output
      else output in
    let resized :=
      if grows then [Ev_resize (wrap64 (size_compressed + increase))]
      else [] in
    let deflate_s1 := set_avail_out deflate_s (wrap32 increase) in
    if has_element0 kind output1 then
      let '(_, deflate_s2, bytes) := deflate deflate_s1 Z_FINISH in
      let output2 := store size_compressed bytes output1 in
      let size_compressed' :=
        wrap64 (size_compressed + wrap64 (increase - avail_out deflate_s2)) in
      after
        (resized ++ [Ev_deflate (avail_out deflate_s1) (size_of bytes)])
        (if avail_out deflate_s2 =? 0
         then compress_loop kind fuel' size deflate_s2 output2
                size_compressed'
         else
           match resize_throws size_compressed' output2 with
           | Some e => Run (Throws e) output2 [Ev_deflateEnd]
           | None =>
             Run Returns (resize size_compressed' output2)
               [Ev_deflateEnd; Ev_resize size_compressed']
           end)
    else Run Undefined output1 resized
    end
  end.

(** [template <typename InputType>
     void compress(InputType& output, const char* data, std::size_t size) const] *)
Definition compress {codec : Zlib} {build : Build} {heap : Heap}
    (kind : container) (self : t) (fuel : nat) (output : list byte)
    (data : list byte) (size : Z) : run :=
  if DEBUG && (UINT_MAX <? size) then
    (* Verify if size input will fit into unsigned int, type used for zlib's
       avail_in *)
    Run (Throws (runtime_error size_not_unsigned)) output []
  else if max_ self <? size then
    Run (Throws (runtime_error size_too_large))
        output []
  else
    match deflateInit2_ (level_ self) Z_DEFLATED window_bits mem_level
            Z_DEFAULT_STRATEGY with
    | None =>
      Run (Throws (runtime_error deflate_init_failed)) output
        [Ev_deflateInit2 (level_ self) false]
    | Some st =>
      let deflate_s :=
        {| next_in := data; avail_in := wrap32 size; avail_out := 0;
           msg := None; state := st |} in
      after [Ev_deflateInit2 (level_ self) true]
        (compress_loop kind fuel size deflate_s output 0)
    end.

End Compressor.

Definition default_max_bytes : Z := 2000000000.

(** [std::string compress(const char* data, std::size_t size, int level)] *)
Definition compress {codec : Zlib} {build : Build} {heap : Heap}
    (fuel : nat) (data : list byte) (size : Z) (level : Z) : run :=
  let comp := Compressor.new level default_max_bytes in
  Compressor.compress std_string comp fuel [] data size.

(** [std::string compress(const std::string& data, int level)] *)
Definition compress_string {codec : Zlib} {build : Build} {heap : Heap}
    (fuel : nat) (data : list byte) (level : Z) : run :=
  let comp := Compressor.new level default_max_bytes in
  Compressor.compress std_string comp fuel [] data (size_of data).

(** [std::vector<uint8_t> compress(const std::vector<uint8_t>& binary_data, int level)] *)
Definition compress_vector {codec : Zlib} {build : Build} {heap : Heap}
    (fuel : nat) (binary_data : list byte) (level : Z) : run :=
  let comp := Compressor.new level default_max_bytes in
  Compressor.compress std_vector comp fuel [] binary_data
    (size_of binary_data).

(** ** decompress.hpp *)

Module Decompressor.

(** [class Decompressor { std::size_t max_; ... }] *)
Record t : Type := new { max_ : Z }.

Definition window_bits : Z := 15 + 32. (* auto with windowbits of 15 *)

(** [ret != Z_STREAM_END && ret != Z_OK && ret != Z_BUF_ERROR] *)
Definition is_failure (r : zret) : bool :=
  negb (zret_eqb r Z_STREAM_END) && negb (zret_eqb r Z_OK)
  && negb (zret_eqb r Z_BUF_ERROR).

(** The [do { ... } while (inflate_s.avail_out == 0)] loop inside the [try]
    block with what follows it, from the state at the loop head. The
    handler runs [inflateEnd] and rethrows, whatever the exception: the
    driver's own, or one of [resize]. Building a [std::string] from a
    null [msg] is undefined. [kind] is the type of the output container. *)
Fixpoint decompress_loop {codec : Zlib} {heap : Heap} (kind : container)
    (fuel : nat) (max : Z) (size : Z) (inflate_s : z_stream inflate_state)
    (output : list byte) (size_uncompressed : Z) : run :=
  match fuel with
  | O => Run OutOfFuel output []
  | S fuel' =>
    let resize_to := wrap64 (size_uncompressed + wrap64 (2 * size)) in
    if max <? resize_to then
      Run (Throws (runtime_error output_too_large))
          output [Ev_inflateEnd]
    else
    match resize_throws resize_to output with
    | Some e => Run (Throws e) output [Ev_inflateEnd]
    | None =>
      let output1 := resize resize_to output in
      let inflate_s1 := set_avail_out inflate_s (wrap32 (wrap64 (2 * size))) in
      if has_element0 kind output1 then
        let '(ret, inflate_s2, bytes) := inflate inflate_s1 Z_FINISH in
        let output2 := store size_uncompressed bytes output1 in
        after
          [Ev_resize resize_to;
           Ev_inflate (avail_out inflate_s1) ret (msg inflate_s2)
             (size_of bytes)]
          (if is_failure ret then
             match msg inflate_s2 with
             | Some error_msg =>
               Run (Throws (runtime_error error_msg)) output2 [Ev_inflateEnd]
             | None => Run Undefined output2 []
             end
           else
             let size_uncompressed' :=
               wrap64 (size_uncompressed
                       + wrap64 (wrap64 (2 * size) - avail_out inflate_s2)) in
             if avail_out inflate_s2 =? 0
             then decompress_loop kind fuel' max size inflate_s2 output2
                    size_uncompressed'
             else
               match resize_throws size_uncompressed' output2 with
               | Some e => Run (Throws e) output2 [Ev_inflateEnd]
               | None =>
                 Run Returns (resize size_uncompressed' output2)
                   [Ev_resize size_uncompressed'; Ev_inflateEnd]
               end)
      else Run Undefined output1 [Ev_resize resize_to]
    end
  end.

(** [template <typename OutputType>
     void decompress(OutputType& output, const char* data, std::size_t size) const] *)
Definition decompress {codec : Zlib} {build : Build} {heap : Heap}
    (kind : container) (self : t) (fuel : nat) (output : list byte)
    (data : list byte) (size : Z) : run :=
  match inflateInit2_ window_bits with
  | None =>
    Run (Throws (runtime_error inflate_init_failed)) output
      [Ev_inflateInit2 false]
  | Some st =>
    let inflate_s :=
      {| next_in := data; avail_in := 0; avail_out := 0; msg := None;
         state := st |} in
    after [Ev_inflateInit2 true]
      (if DEBUG && (UINT_MAX <? wrap64 (size * 2)) then
         (* Verify if (size * 2) fits into unsigned int *)
         Run (Throws (runtime_error size_not_unsigned_x2)) output
           [Ev_inflateEnd]
       else
       if (max_ self <? size) || (max_ self <? wrap64 (size * 2)) then
         Run (Throws (runtime_error size_too_large))
             output [Ev_inflateEnd]
       else
         let inflate_s := set_avail_in inflate_s (wrap32 size) in
         decompress_loop kind fuel (max_ self) size inflate_s output 0)
  end.

End Decompressor.

(** [std::string decompress(const char* data, std::size_t size, std::size_t max_bytes)] *)
Definition decompress {codec : Zlib} {build : Build} {heap : Heap}
    (fuel : nat) (data : list byte) (size : Z) (max_bytes : Z) : run :=
  let decomp := Decompressor.new max_bytes in
  Decompressor.decompress std_string decomp fuel [] data size.

(** [std::string decompress(const std::string& data, std::size_t max_bytes)] *)
Definition decompress_string {codec : Zlib} {build : Build} {heap : Heap}
    (fuel : nat) (data : list byte) (max_bytes : Z) : run :=
  let decomp := Decompressor.new max_bytes in
  Decompressor.decompress std_string decomp fuel [] data (size_of data).

(** [std::vector<uint8_t> decompress(const std::vector<uint8_t>& binary_data, std::size_t max_bytes)] *)
Definition decompress_vector {codec : Zlib} {build : Build} {heap : Heap}
    (fuel : nat) (binary_data : list byte) (max_bytes : Z) : run :=
  let decomp := Decompressor.new max_bytes in
  Decompressor.decompress std_vector decomp fuel [] binary_data
    (size_of binary_data).

Unset Implicit Arguments.

(** ** What the drivers rely on from zlib

    [deflate] and [inflate] under [Z_FINISH], as zlib.h documents them: a call
    never stores more than [avail_out] bytes; [deflate] keeps emitting the
    stream of its input until the window is full or the stream is complete;
    [inflate], given a complete stream, keeps emitting the data until the
    window is full or the data is complete, and reports no failure. *)

(** No call stores more than [avail_out] bytes. *)
Definition window_respected (codec : Zlib) : Prop :=
  (forall st inp w flush,
      0 <= w -> size_of (produced (deflate_ st inp w flush)) <= w) /\
  (forall st inp w flush,
      0 <= w -> size_of (produced (inflate_ st inp w flush)) <= w).

(** The free store grants every request for up to [bound] bytes. *)
Definition grants (heap : Heap) (bound : Z) : Prop :=
  bound <= max_size /\ forall n, n <= bound -> allocates n = true.

(** [deflating st inp rest]: the stream in state [st] with [inp] still to
    read has exactly [rest] still to emit. [gzip_of level data] is the
    complete gzip member for [data]. *)
Record deflate_finishes (codec : Zlib)
    (gzip_of : Z -> list byte -> list byte)
    (deflating : deflate_state -> list byte -> list byte -> Prop) : Prop := {
  deflating_init : forall level st inp,
      deflateInit2_ level Z_DEFLATED Compressor.window_bits
        Compressor.mem_level Z_DEFAULT_STRATEGY = Some st ->
      deflating st inp (gzip_of level inp);
  deflating_step : forall st inp rest w,
      deflating st inp rest -> 0 <= w ->
      let r := deflate_ st inp w Z_FINISH in
      produced r = firstn (Z.to_nat w) rest /\
      (consumed r <= length inp)%nat /\
      deflating (step_state r) (skipn (consumed r) inp)
        (skipn (Z.to_nat w) rest);
  deflating_bound : forall level inp,
      0 < size_of (gzip_of level inp) <= 2 * size_of inp + 64
}.

(** [inflating st inp rest]: the stream in state [st] with [inp] still to
    read has exactly [rest] still to emit, and the input is well formed. The
    streams [deflate] produces at a level it accepts are well formed. *)
Record inflate_finishes (codec : Zlib)
    (gzip_of : Z -> list byte -> list byte)
    (inflating : inflate_state -> list byte -> list byte -> Prop) : Prop := {
  inflating_init : forall level dst st data,
      deflateInit2_ level Z_DEFLATED Compressor.window_bits
        Compressor.mem_level Z_DEFAULT_STRATEGY = Some dst ->
      inflateInit2_ Decompressor.window_bits = Some st ->
      inflating st (gzip_of level data) data;
  inflating_step : forall st inp rest w,
      inflating st inp rest -> 0 <= w ->
      let r := inflate_ st inp w Z_FINISH in
      Decompressor.is_failure (ret r) = false /\
      produced r = firstn (Z.to_nat w) rest /\
      (consumed r <= length inp)%nat /\
      inflating (step_state r) (skipn (consumed r) inp)
        (skipn (Z.to_nat w) rest)
}.


(** With neither input nor output space a call of [inflate] can make no
    progress; zlib reports that as [Z_BUF_ERROR], which the driver does not
    take for a failure, and the stream stays as it was. [idle] holds of the
    streams that have not seen any input. *)
Definition starved_inflate_is_quiet (codec : Zlib) : Prop :=
  exists idle : inflate_state -> Prop,
    (forall st, inflateInit2_ Decompressor.window_bits = Some st -> idle st) /\
    (forall st, idle st ->
       let r := inflate_ st [] 0 Z_FINISH in
       Decompressor.is_failure (ret r) = false /\ idle (step_state r)).

(** ** A reference codec

    A small codec with the stream protocol of zlib and a format of its own:
    the gzip magic, every data byte as a literal token ([01 b]) and an
    end-of-stream token ([00]). Like zlib it accepts the levels -1 to 9,
    recognises a zlib header as well, asks for a dictionary when the header
    says so, and leaves no message for that request. It shows that the
    assumptions above can be met, and gives the drivers something to run
    on. *)
Module Stored.

Definition encode (data : list byte) : list byte :=
  [x1f; x8b] ++ flat_map (fun b => [x01; b]) data ++ [x00].

Inductive dstate : Type :=
| Fresh
| Pending (rest : list byte).

Definition deflateInit2 (level method windowBits memLevel strategy : Z)
  : option dstate :=
  if (-1 <=? level) && (level <=? 9) && (method =? Z_DEFLATED)
  then Some Fresh else None.

Definition deflate (st : dstate) (inp : list byte) (w flush : Z)
  : step dstate :=
  let pending := match st with Fresh => encode inp | Pending p => p end in
  {| ret := if size_of pending <=? w then Z_STREAM_END
            else if w =? 0 then Z_BUF_ERROR else Z_OK;
     consumed := match st with Fresh => length inp | Pending _ => O end;
     produced := firstn (Z.to_nat w) pending;
     step_msg := None;
     step_state := Pending (skipn (Z.to_nat w) pending) |}.

(** How a stream ends. *)
Inductive ending : Type :=
| End
| Truncated
| Corrupt (m : string)
| NeedDict.

Fixpoint decode_body (inp : list byte) : list byte * ending :=
  match inp with
  | [] => ([], Truncated)
  | t :: inp' =>
    if Byte.eqb t x00 then ([], End)
    else if Byte.eqb t x01 then
      match inp' with
      | [] => ([], Truncated)
      | b :: inp'' =>
        let (d, e) := decode_body inp'' in (b :: d, e)
      end
    else ([], Corrupt "invalid block type"%string)
  end.

Definition decode (inp : list byte) : list byte * ending :=
  match inp with
  | b0 :: b1 :: body =>
    if Byte.eqb b0 x1f && Byte.eqb b1 x8b then decode_body body
    else if ((uint8_t b0 * 256 + uint8_t b1) mod 31 =? 0)
            && (uint8_t b0 mod 16 =? Z_DEFLATED) then
      if Z.testbit (uint8_t b1) 5 then
        if 4 <=? size_of body then ([], NeedDict) else ([], Truncated)
      else decode_body body
    else ([], Corrupt "incorrect header check"%string)
  | _ => ([], Truncated)
  end.

Inductive istate : Type :=
| Start
| Draining (rest : list byte) (e : ending).

Definition inflateInit2 (windowBits : Z) : option istate := Some Start.

Definition inflate (st : istate) (inp : list byte) (w flush : Z)
  : step istate :=
  let '(pending, e) :=
    match st with Start => decode inp | Draining p e => (p, e) end in
  let done := size_of pending <=? w in
  {| ret := if done then
              match e with
              | End => Z_STREAM_END
              | Truncated => Z_BUF_ERROR
              | Corrupt _ => Z_DATA_ERROR
              | NeedDict => Z_NEED_DICT
              end
            else Z_BUF_ERROR;
     consumed := match st with Start => length inp | Draining _ _ => O end;
     produced := firstn (Z.to_nat w) pending;
     step_msg := if done then
                   match e with Corrupt m => Some m | _ => None end
                 else None;
     step_state := Draining (skipn (Z.to_nat w) pending) e |}.

#[export] Instance codec : Zlib := {
  deflate_state := dstate;
  inflate_state := istate;
  deflateInit2_ := deflateInit2;
  deflate_ := deflate;
  inflateInit2_ := inflateInit2;
  inflate_ := inflate
}.

Definition gzip_of (level : Z) (data : list byte) : list byte := encode data.

Definition deflating (st : dstate) (inp rest : list byte) : Prop :=
  match st with
  | Fresh => rest = encode inp
  | Pending p => rest = p
  end.

Definition inflating (st : istate) (inp rest : list byte) : Prop :=
  match st with
  | Start => decode inp = (rest, End)
  | Draining p e => rest = p /\ e = End
  end.

End Stored.

(** The two builds. *)
Definition release_build : Build := {| DEBUG := false |}.
Definition debug_build : Build := {| DEBUG := true |}.

Definition hello : list byte := [x68; x65; x6c; x6c; x6f].


(** ** Reading the record of a run *)




(** The run made no call of [deflate] or [inflate]. *)
Definition no_codec_call (r : run) : Prop :=
  (forall w n, ~ In (Ev_deflate w n) (events r)) /\
  (forall w c m n, ~ In (Ev_inflate w c m n) (events r)).

(** The run never resized the output container. *)
Definition no_resize (r : run) : Prop :=
  forall n, ~ In (Ev_resize n) (events r).

(** The run left by a [std::runtime_error]. *)
Definition throws_runtime_error (r : run) : Prop :=
  exists what, outcome r = Throws (runtime_error what).

(** The outcome of a call of [inflate] that reports a failure: the message of
    the codec becomes a [std::runtime_error]; without a message the
    [std::string] is built from a null pointer. *)
Definition failure_outcome (m : option string) : status :=
  match m with
  | Some what => Throws (runtime_error what)
  | None => Undefined
  end.

(** The number of calls of [deflate] and of [inflate] in a record. *)
Definition is_deflate_call (e : event) : bool :=
  match e with
  | Ev_deflate _ _ => true
  | _ => false
  end.

Definition is_inflate_call (e : event) : bool :=
  match e with
  | Ev_inflate _ _ _ _ => true
  | _ => false
  end.

Definition deflate_calls (evs : list event) : nat :=
  length (filter is_deflate_call evs).

Definition inflate_calls (evs : list event) : nat :=
  length (filter is_inflate_call evs).

(** The number of bytes the calls of [inflate] in a record wrote. *)
Fixpoint written_by_inflate (evs : list event) : Z :=
  match evs with
  | [] => 0
  | Ev_inflate _ _ _ n :: evs' => n + written_by_inflate evs'
  | _ :: evs' => written_by_inflate evs'
  end.



(** The event [e] occurs in the record exactly once, as its last event. *)
Definition closes_with (e : event) (evs : list event) : Prop :=
  exists pre, evs = pre ++ [e] /\ ~ In e pre.

(** The run came back: it returned, or it left by an exception. *)
Definition comes_back (r : run) : Prop :=
  outcome r = Returns \/ exists e, outcome r = Throws e.

(** The codec [codec] with the return codes of [deflate] and of [inflate]
    replaced: [deflate] reports [fd c] and [inflate] reports [fi c] where
    [codec] reports [c]; everything else is as in [codec]. *)
Definition with_ret (codec : Zlib) (fd fi : zret -> zret) : Zlib := {|
  deflate_state := @deflate_state codec;
  inflate_state := @inflate_state codec;
  deflateInit2_ := @deflateInit2_ codec;
  deflate_ := fun st inp w flush =>
    let r := @deflate_ codec st inp w flush in
    {| ret := fd (ret r); consumed := consumed r; produced := produced r;
       step_msg := step_msg r; step_state := step_state r |};
  inflateInit2_ := @inflateInit2_ codec;
  inflate_ := fun st inp w flush =>
    let r := @inflate_ codec st inp w flush in
    {| ret := fi (ret r); consumed := consumed r; produced := produced r;
       step_msg := step_msg r; step_state := step_state r |}
|}.
(** * Properties *)

(** ** The signature sniffer *)

Lemma is_compressed_cons (b0 b1 : byte) (rest : list byte) (size : Z) :
  is_compressed (b0 :: b1 :: rest) size = true <->
  2 < size /\ (zlib_magic b0 b1 \/ gzip_magic b0 b1).
Proof.
  unfold is_compressed, zlib_magic, gzip_magic, at_index; cbn [nth].
  rewrite andb_true_iff, Z.ltb_lt.
  split.
  - intros [Hs Hm]; split; [exact Hs|].
    destruct b0; try discriminate Hm; destruct b1; try discriminate Hm; auto 10.
  - intros [Hs Hm]; split; [exact Hs|].
    destruct Hm as [[-> H1]|[-> ->]]; [|reflexivity].
    destruct H1 as [->|[->|[->| ->]]]; reflexivity.
Qed.

(** The size is looked at first. *)
Lemma is_compressed_size_guard (data : list byte) (size : Z) :
  size <= 2 -> is_compressed data size = false.
Proof.
  intros H. unfold is_compressed.
  replace (2 <? size) with false by (symmetry; apply Z.ltb_ge; exact H).
  reflexivity.
Qed.

(** C8. [is_compressed(data, size)] is false whenever [size <= 2], whatever
    the bytes are: for the pointer function with any [size <= 2], and for
    the [std::string] and [std::vector<uint8_t>] functions on every
    container of at most two bytes. *)
Theorem is_compressed_short_buffer (data : list byte) (size : Z) :
  (size <= 2 -> is_compressed data size = false) /\
  (size_of data <= 2 ->
   is_compressed_string data = false /\ is_compressed_vector data = false).
Proof.
  split.
  - apply is_compressed_size_guard.
  - intros H. split; apply is_compressed_size_guard; exact H.
Qed.

(** C8, at the two complete magic numbers: each is a buffer of two bytes and
    each is classified as not compressed. *)
Lemma is_compressed_short_buffer_witness :
  (size_of [x1f; x8b] <= 2 /\
   is_compressed [x1f; x8b] (size_of [x1f; x8b]) = false) /\
  (size_of [x78; x9c] <= 2 /\
   is_compressed_string [x78; x9c] = false /\
   is_compressed_vector [x78; x9c] = false).
Proof.
  split; (split; [vm_compute; discriminate|]).
  - apply (proj1 (is_compressed_short_buffer [x1f; x8b] 2)).
    vm_compute. discriminate.
  - apply (proj2 (is_compressed_short_buffer [x78; x9c] 2)).
    vm_compute. discriminate.
Defined.

(** C2 as stated fails: the two bytes of the gzip magic alone are a buffer
    whose first two bytes match, and it is classified as not compressed. *)
Lemma is_compressed_magic_only_is_false :
  starts_with_magic [x1f; x8b] /\ is_compressed_string [x1f; x8b] = false.
Proof.
  split; [|reflexivity].
  exists x1f, x8b, []. split; [reflexivity|]. right. split; reflexivity.
Qed.

(** C2, amended. For a buffer of more than two bytes [is_compressed] is true
    exactly when the first two bytes are a zlib or the gzip magic; a buffer
    whose first two bytes are neither is classified as not compressed, at
    every size. The three overloads agree. *)
Theorem is_compressed_classifies (data : list byte) :
  (2 < size_of data ->
   (is_compressed data (size_of data) = true <-> starts_with_magic data)) /\
  (~ starts_with_magic data -> is_compressed data (size_of data) = false) /\
  is_compressed_string data = is_compressed data (size_of data) /\
  is_compressed_vector data = is_compressed data (size_of data).
Proof.
  assert (Hiff : is_compressed data (size_of data) = true ->
                 starts_with_magic data).
  { destruct data as [|b0 [|b1 rest]];
      try (rewrite is_compressed_size_guard by (cbn; lia); discriminate).
    intros H. apply is_compressed_cons in H. destruct H as [_ H].
    exists b0, b1, rest. split; [reflexivity | exact H]. }
  split; [|split; [|split; reflexivity]].
  - intros Hs. split; [exact Hiff|].
    intros (b0 & b1 & rest & -> & Hm).
    apply is_compressed_cons. split; [exact Hs | exact Hm].
  - intros Hn.
    destruct (is_compressed data (size_of data)) eqn:E; [|reflexivity].
    exfalso. apply Hn, Hiff. reflexivity.
Qed.

Lemma is_compressed_classifies_witness :
  (2 < size_of [x1f; x8b; x08] /\
   (is_compressed [x1f; x8b; x08] (size_of [x1f; x8b; x08]) = true <->
    starts_with_magic [x1f; x8b; x08])) /\
  (~ starts_with_magic [x68; x69; x21] /\
   is_compressed [x68; x69; x21] (size_of [x68; x69; x21]) = false).
Proof.
  split; split.
  - reflexivity.
  - apply (proj1 (is_compressed_classifies [x1f; x8b; x08])). reflexivity.
  - intros (b0 & b1 & rest & E & [[H _]|[H _]]); injection E as <- <- _;
      discriminate H.
  - apply (proj1 (proj2 (is_compressed_classifies [x68; x69; x21]))).
    intros (b0 & b1 & rest & E & [[H _]|[H _]]); injection E as <- <- _;
      discriminate H.
Defined.

(** ** Refusals *)

Section Refusals.

Context {codec : Zlib} {build : Build} {heap : Heap}.

(** What [compress] does when the size check fails. *)
Lemma compress_oversized kind (comp : Compressor.t) fuel out data size :
  Compressor.max_ comp < size ->
  let r := Compressor.compress kind comp fuel out data size in
  throws_runtime_error r /\ events r = [] /\ output r = out.
Proof.
  intros H r. subst r. unfold Compressor.compress.
  apply Z.ltb_lt in H. rewrite H.
  destruct (DEBUG && (UINT_MAX <? size))%bool; cbn;
    (split; [eexists; reflexivity | split; reflexivity]).
Qed.

(** What [decompress] does when the size check fails. *)
Lemma decompress_refused kind (decomp : Decompressor.t) fuel out data size :
  (Decompressor.max_ decomp <? size)
  || (Decompressor.max_ decomp <? wrap64 (size * 2)) = true ->
  let r := Decompressor.decompress kind decomp fuel out data size in
  throws_runtime_error r /\ no_codec_call r /\ no_resize r /\ output r = out.
Proof.
  intros H r. subst r. unfold Decompressor.decompress.
  destruct (inflateInit2_ Decompressor.window_bits) as [st|].
  - rewrite H.
    destruct (DEBUG && (UINT_MAX <? wrap64 (size * 2)))%bool; cbn;
      (split; [eexists; reflexivity|];
       split; [split; intros; intros [E|[E|[]]]; discriminate E|];
       split; [intros n [E|[E|[]]]; discriminate E | reflexivity]).
  - cbn.
    split; [eexists; reflexivity|].
    split; [split; intros; intros [E|[]]; discriminate E|].
    split; [intros n [E|[]]; discriminate E | reflexivity].
Qed.

End Refusals.

(** C7. [compress] throws [std::runtime_error] whenever the input size
    exceeds the ceiling of the [Compressor], before the codec is set up or
    given anything, and leaves the output container as it was; [decompress]
    throws [std::runtime_error] whenever the input size exceeds the ceiling
    of the [Decompressor], without a call of [inflate] and without touching
    the output container. With the ceiling of 2000000000 the functions of
    the namespace do the same. *)
Theorem oversized_input_is_refused {codec : Zlib} {build : Build} {heap : Heap} :
  (forall kind (comp : Compressor.t) fuel out data size,
      Compressor.max_ comp < size ->
      let r := Compressor.compress kind comp fuel out data size in
      throws_runtime_error r /\ events r = [] /\ output r = out) /\
  (forall kind (decomp : Decompressor.t) fuel out data size,
      Decompressor.max_ decomp < size ->
      let r := Decompressor.decompress kind decomp fuel out data size in
      throws_runtime_error r /\ no_codec_call r /\ no_resize r /\
      output r = out) /\
  (forall fuel data level,
      2000000000 < size_of data ->
      let r := compress_string fuel data level in
      throws_runtime_error r /\ events r = [] /\ output r = []) /\
  (forall fuel data max_bytes,
      max_bytes < size_of data ->
      let r := decompress_string fuel data max_bytes in
      throws_runtime_error r /\ no_codec_call r /\ no_resize r /\
      output r = []).
Proof.
  split; [|split; [|split]].
  - intros kind comp fuel out data size H.
    apply compress_oversized. exact H.
  - intros kind decomp fuel out data size H.
    apply decompress_refused. apply Z.ltb_lt in H. rewrite H. reflexivity.
  - intros fuel data level H. unfold compress_string.
    apply compress_oversized. exact H.
  - intros fuel data max_bytes H. unfold decompress_string.
    apply decompress_refused. cbn. apply Z.ltb_lt in H. rewrite H. reflexivity.
Qed.

Lemma oversized_input_is_refused_witness :
  (let r := Compressor.compress (codec := Stored.codec) (build := release_build) (heap := roomy) std_string
              (Compressor.new 6 4) 3 [] hello (size_of hello) in
   throws_runtime_error r /\ events r = [] /\ output r = []) /\
  (let r := Decompressor.decompress (codec := Stored.codec) (build := release_build) (heap := roomy) std_vector
              (Decompressor.new 4) 3 [] hello (size_of hello) in
   throws_runtime_error r /\ no_codec_call r /\ no_resize r /\
   output r = []) /\
  (let r := compress_string (codec := Stored.codec) (build := release_build) (heap := roomy) 3
              (repeat x00 (Z.to_nat 2000000001)) 6 in
   throws_runtime_error r /\ events r = [] /\ output r = []) /\
  (let r := decompress_string (codec := Stored.codec) (build := release_build) (heap := roomy) 3 hello 4 in
   throws_runtime_error r /\ no_codec_call r /\ no_resize r /\
   output r = []).
Proof.
  split; [|split; [|split]].
  - apply (proj1 (oversized_input_is_refused (codec := Stored.codec) (build := release_build) (heap := roomy))).
    reflexivity.
  - apply (proj1 (proj2 (oversized_input_is_refused (codec := Stored.codec) (build := release_build) (heap := roomy)))).
    reflexivity.
  - apply (proj1 (proj2 (proj2
             (oversized_input_is_refused (codec := Stored.codec) (build := release_build) (heap := roomy))))).
    unfold size_of. rewrite repeat_length. lia.
  - apply (proj2 (proj2 (proj2
             (oversized_input_is_refused (codec := Stored.codec) (build := release_build) (heap := roomy))))).
    reflexivity.
Defined.

(** C9. [decompress] throws [std::runtime_error] without a call of [inflate]
    whenever twice the input size exceeds the ceiling: for every buffer that
    can exist (at most [PTRDIFF_MAX] bytes) and every ceiling, and with the
    ceiling of 2000000000 for every input of more than 1000000000 bytes. *)
Theorem decompress_refuses_half_ceiling {codec : Zlib} {build : Build} {heap : Heap} :
  (forall kind (decomp : Decompressor.t) fuel out data size,
      0 <= size <= PTRDIFF_MAX ->
      Decompressor.max_ decomp < 2 * size ->
      let r := Decompressor.decompress kind decomp fuel out data size in
      throws_runtime_error r /\ no_codec_call r /\ no_resize r /\
      output r = out) /\
  (forall kind fuel out data size,
      0 <= size <= SIZE_MAX ->
      1000000000 < size ->
      let r := Decompressor.decompress kind (Decompressor.new default_max_bytes)
                 fuel out data size in
      throws_runtime_error r /\ no_codec_call r /\ no_resize r /\
      output r = out).
Proof.
  split.
  - intros kind decomp fuel out data size Hr H.
    apply decompress_refused.
    apply orb_true_iff. right. apply Z.ltb_lt.
    unfold wrap64, PTRDIFF_MAX in *. rewrite Z.mod_small; lia.
  - intros kind fuel out data size Hr H.
    apply decompress_refused. cbn [Decompressor.max_].
    unfold default_max_bytes, SIZE_MAX in *.
    apply orb_true_iff.
    destruct (Z_lt_le_dec 2000000000 size) as [Hb|Hb].
    + left. apply Z.ltb_lt. exact Hb.
    + right. apply Z.ltb_lt. unfold wrap64. rewrite Z.mod_small; lia.
Qed.

Lemma decompress_refuses_half_ceiling_witness :
  (let r := Decompressor.decompress (codec := Stored.codec) (build := release_build) (heap := roomy) std_string
              (Decompressor.new 8) 3 [] hello (size_of hello) in
   throws_runtime_error r /\ no_codec_call r /\ no_resize r /\ output r = []) /\
  (let r := Decompressor.decompress (codec := Stored.codec) (build := release_build) (heap := roomy) std_string
              (Decompressor.new default_max_bytes) 3 []
              (repeat x00 (Z.to_nat 1500000000)) 1500000000 in
   throws_runtime_error r /\ no_codec_call r /\ no_resize r /\ output r = []).
Proof.
  split.
  - apply (proj1 (decompress_refuses_half_ceiling (codec := Stored.codec) (build := release_build) (heap := roomy)));
      [split; vm_compute; discriminate | reflexivity].
  - apply (proj2 (decompress_refuses_half_ceiling (codec := Stored.codec) (build := release_build) (heap := roomy)));
      [split; vm_compute; discriminate | reflexivity].
Defined.

(** ** Sizes, containers and streams *)

Lemma size_of_nonneg (v : list byte) : 0 <= size_of v.
Proof. unfold size_of. lia. Qed.

Lemma size_of_app (u v : list byte) : size_of (u ++ v) = size_of u + size_of v.
Proof. unfold size_of. rewrite length_app. lia. Qed.

Lemma size_of_firstn (n : Z) (v : list byte) :
  0 <= n -> size_of (firstn (Z.to_nat n) v) = Z.min n (size_of v).
Proof. intros H. unfold size_of. rewrite length_firstn. lia. Qed.

Lemma size_of_skipn (n : Z) (v : list byte) :
  0 <= n -> size_of (skipn (Z.to_nat n) v) = Z.max 0 (size_of v - n).
Proof. intros H. unfold size_of. rewrite length_skipn. lia. Qed.

Lemma size_of_resize (n : Z) (v : list byte) :
  0 <= n -> size_of (resize n v) = n.
Proof.
  intros H. unfold resize, size_of.
  rewrite length_app, length_firstn, repeat_length. lia.
Qed.

Lemma wrap64_small (z : Z) : 0 <= z <= SIZE_MAX -> wrap64 z = z.
Proof. unfold wrap64, SIZE_MAX. intros H. apply Z.mod_small. lia. Qed.

Lemma wrap32_small (z : Z) : 0 <= z <= UINT_MAX -> wrap32 z = z.
Proof. unfold wrap32, UINT_MAX. intros H. apply Z.mod_small. lia. Qed.

Lemma wrap64_range (z : Z) : 0 <= wrap64 z <= SIZE_MAX.
Proof.
  unfold wrap64, SIZE_MAX.
  pose proof (Z.mod_pos_bound z (2 ^ 64) ltac:(lia)). lia.
Qed.

Lemma wrap32_range (z : Z) : 0 <= wrap32 z <= UINT_MAX.
Proof.
  unfold wrap32, UINT_MAX.
  pose proof (Z.mod_pos_bound z (2 ^ 32) ltac:(lia)). lia.
Qed.

(** A resize that does not grow the container does not throw. *)
Lemma resize_within {heap : Heap} (n : Z) (v : list byte) :
  n <= size_of v -> resize_throws n v = None.
Proof.
  intros H. unfold resize_throws.
  replace (n <=? size_of v) with true by (symmetry; apply Z.leb_le; exact H).
  reflexivity.
Qed.

(** The exceptions of [resize]. *)
Lemma resize_throws_alloc {heap : Heap} (n : Z) (v : list byte)
    (e : exception) :
  resize_throws n v = Some e ->
  (e = length_error \/ e = bad_alloc) /\ size_of v < n.
Proof.
  unfold resize_throws.
  destruct (Z.leb_spec n (size_of v)) as [Hle|Hlt]; [discriminate|].
  destruct (max_size <? n); [intros E; injection E as <-; auto|].
  destruct (allocates n); [discriminate|].
  intros E; injection E as <-; auto.
Qed.

(** Nor does one the free store grants. *)
Lemma resize_granted {heap : Heap} (bound n : Z) (v : list byte) :
  grants heap bound -> n <= bound -> resize_throws n v = None.
Proof.
  intros [Hm Ha] H. unfold resize_throws.
  destruct (n <=? size_of v); [reflexivity|].
  replace (max_size <? n) with false by (symmetry; apply Z.ltb_ge; lia).
  rewrite (Ha n H). reflexivity.
Qed.

Lemma grants_le {heap : Heap} (bound bound' : Z) :
  grants heap bound -> bound' <= bound -> grants heap bound'.
Proof.
  intros [Hm Ha] H. split; [lia|]. intros n Hn. apply Ha. lia.
Qed.

Lemma roomy_grants (bound : Z) : bound <= PTRDIFF_MAX -> grants roomy bound.
Proof. intros H. split; [exact H | reflexivity]. Qed.

Lemma heap_of_grants (limit : Z) :
  limit <= PTRDIFF_MAX -> grants (heap_of limit) limit.
Proof.
  intros H. split; [exact H|]. intros n Hn. now apply Z.leb_le.
Qed.


Lemma has_element0_nonempty (kind : container) (v : list byte) :
  0 < size_of v -> has_element0 kind v = true.
Proof.
  destruct v as [|b v]; [cbn; lia|]. intros _. destruct kind; reflexivity.
Qed.

(** The first [n] bytes survive a resize to at least [n]. *)
Lemma firstn_resize (n m : Z) (v : list byte) :
  0 <= n <= m -> n <= size_of v ->
  firstn (Z.to_nat n) (resize m v) = firstn (Z.to_nat n) v.
Proof.
  intros Hn Hv. unfold resize, size_of in *.
  rewrite firstn_app, firstn_firstn.
  replace (Init.Nat.min (Z.to_nat n) (Z.to_nat m)) with (Z.to_nat n) by lia.
  rewrite length_firstn.
  replace (Z.to_nat n - Init.Nat.min (Z.to_nat m) (length v))%nat with O by lia.
  cbn. apply app_nil_r.
Qed.

(** Resizing to the length of a prefix cuts the container down to it. *)
Lemma resize_prefix (u v : list byte) :
  resize (size_of u) (u ++ v) = u.
Proof.
  unfold resize, size_of. rewrite Nat2Z.id.
  rewrite firstn_app, firstn_all, Nat.sub_diag. cbn [firstn].
  rewrite app_nil_r, length_app.
  replace (length u - (length u + length v))%nat with O by lia.
  cbn. apply app_nil_r.
Qed.

(** Storing at an offset inside the container writes after the bytes before
    the offset and keeps the length when the bytes fit. *)
Lemma store_spec (off : Z) (bytes v : list byte) :
  0 <= off -> off <= size_of v ->
  store off bytes v =
  (firstn (Z.to_nat off) v ++ bytes)
  ++ skipn (Z.to_nat off + length bytes) v.
Proof. intros _ _. unfold store. now rewrite app_assoc. Qed.

Lemma size_of_store (off : Z) (bytes v : list byte) :
  0 <= off -> off + size_of bytes <= size_of v ->
  size_of (store off bytes v) = size_of v.
Proof.
  intros H0 H1. unfold store, size_of in *.
  rewrite !length_app, length_firstn, length_skipn. lia.
Qed.

Lemma firstn_store (off : Z) (bytes v : list byte) :
  0 <= off -> off <= size_of v ->
  firstn (Z.to_nat (off + size_of bytes)) (store off bytes v) =
  firstn (Z.to_nat off) v ++ bytes.
Proof.
  intros H0 H1. rewrite store_spec by assumption.
  set (p := firstn (Z.to_nat off) v ++ bytes).
  assert (Hp : Z.to_nat (off + size_of bytes) = length p).
  { subst p. unfold size_of in *. rewrite length_app, length_firstn. lia. }
  rewrite Hp, firstn_app, firstn_all, Nat.sub_diag. cbn [firstn].
  apply app_nil_r.
Qed.

(** The readable input after a call that read [c] bytes of it. *)
Lemma readable_advance {I : Type} (s : z_stream I) (r : step I) :
  0 <= avail_in s <= UINT_MAX ->
  (consumed r <= length (readable s))%nat ->
  readable (advance s r) = skipn (consumed r) (readable s) /\
  0 <= avail_in (advance s r) <= UINT_MAX.
Proof.
  intros Ha Hc. unfold readable in *. cbn [advance next_in avail_in].
  rewrite length_firstn in Hc.
  rewrite wrap32_small by lia.
  split; [|lia].
  rewrite skipn_firstn_comm. f_equal. lia.
Qed.

(** ** The compress loop on a codec that follows the protocol *)

Section CompressLoop.

Context {codec : Zlib} {build : Build} {heap : Heap}.
Variable gzip_of : Z -> list byte -> list byte.
Variable deflating : deflate_state -> list byte -> list byte -> Prop.
Hypothesis laws : deflate_finishes codec gzip_of deflating.
Variable kind : container.




End CompressLoop.

(** ** The decompress loop on a well-formed stream *)

Section DecompressLoop.

Context {codec : Zlib} {build : Build} {heap : Heap}.
Variable gzip_of : Z -> list byte -> list byte.
Variable inflating : inflate_state -> list byte -> list byte -> Prop.
Hypothesis laws : inflate_finishes codec gzip_of inflating.
Variable kind : container.

Lemma decompress_loop_finishes (fuel : nat) :
  forall (rest : list byte) (max size : Z) (s : z_stream inflate_state)
         (out : list byte) (su : Z),
    0 < size -> 2 * size <= UINT_MAX ->
    inflating (state s) (readable s) rest ->
    0 <= avail_in s <= UINT_MAX ->
    0 <= su <= size_of out ->
    su + (size_of rest / (2 * size) + 1) * (2 * size) <= max ->
    max <= SIZE_MAX ->
    grants heap (su + (size_of rest / (2 * size) + 1) * (2 * size)) ->
    size_of rest / (2 * size) < Z.of_nat fuel ->
    let r := Decompressor.decompress_loop kind fuel max size s out su in
    outcome r = Returns /\
    output r = firstn (Z.to_nat su) out ++ rest.
Proof.
  induction fuel as [|fuel IH];
    intros rest max size s out su Hsize Hw Hi Ha Hsu Hceil Hmax Hheap Hfuel.
  - exfalso. pose proof (size_of_nonneg rest).
    assert (0 <= size_of rest / (2 * size)) by (apply Z.div_pos; lia).
    lia.
  - set (W := 2 * size) in *.
    pose proof (size_of_nonneg rest) as Hrest.
    assert (Hq : 0 <= size_of rest / W) by (apply Z.div_pos; lia).
    cbn [Decompressor.decompress_loop].
    fold W. unfold inflate. cbn [set_avail_out avail_out state].
    change (readable (set_avail_out s (wrap32 (wrap64 W)))) with (readable s).
    rewrite !(wrap64_small W) by (unfold UINT_MAX, SIZE_MAX in *; lia).
    rewrite !(wrap32_small W) by lia.
    rewrite !(wrap64_small (su + W)) by (unfold SIZE_MAX in *; nia).
    replace (max <? su + W) with false by (symmetry; apply Z.ltb_ge; nia).
    rewrite (resize_granted _ (su + W) out Hheap) by nia.
    rewrite (has_element0_nonempty kind (resize (su + W) out))
      by (rewrite size_of_resize; lia).
    destruct (inflating_step _ _ _ laws _ _ _ W Hi ltac:(lia))
      as (Hok & Hp & Hc & Hi').
    set (r := inflate_ (state s) (readable s) W Z_FINISH) in *.
    rewrite Hok.
    assert (Hsz : size_of (produced r) = Z.min W (size_of rest))
      by (rewrite Hp; apply size_of_firstn; lia).
    assert (Ha2 : avail_out (advance (set_avail_out s W) r)
                  = W - size_of (produced r)).
    { cbn [advance avail_out set_avail_out]. apply wrap32_small. lia. }
    rewrite Ha2.
    replace (W - (W - size_of (produced r))) with (size_of (produced r))
      by lia.
    rewrite (wrap64_small (size_of (produced r)))
      by (unfold SIZE_MAX, UINT_MAX in *; lia).
    rewrite !(wrap64_small (su + size_of (produced r)))
      by (unfold SIZE_MAX in *; nia).
    set (out1 := resize (su + W) out).
    assert (Hlen1 : size_of out1 = su + W)
      by (subst out1; apply size_of_resize; lia).
    assert (Hpre1 : firstn (Z.to_nat su) out1 = firstn (Z.to_nat su) out)
      by (subst out1; apply firstn_resize; lia).
    set (out2 := store su (produced r) out1).
    assert (Hpre2 : firstn (Z.to_nat (su + size_of (produced r))) out2
                    = firstn (Z.to_nat su) out ++ produced r).
    { subst out2. rewrite firstn_store by lia. now rewrite Hpre1. }
    assert (Hlen2 : size_of out2 = size_of out1)
      by (subst out2; apply size_of_store; lia).
    destruct (readable_advance (set_avail_out s W) r Ha Hc) as (Hrd & Ha').
    change (readable (set_avail_out s W)) with (readable s) in Hrd.
    destruct (Z.eqb_spec (W - size_of (produced r)) 0) as [Hfull|Hlast].
    + assert (Hge : W <= size_of rest) by lia.
      assert (Hsz' : size_of (skipn (Z.to_nat W) rest) = size_of rest - W)
        by (rewrite size_of_skipn; lia).
      assert (Hdiv : size_of (skipn (Z.to_nat W) rest) / W
                     = size_of rest / W - 1).
      { rewrite Hsz'.
        replace (size_of rest - W) with (size_of rest + (-1) * W) by lia.
        rewrite Z.div_add by lia. lia. }
      specialize (IH (skipn (Z.to_nat W) rest) max size
                    (advance (set_avail_out s W) r) out2
                    (su + size_of (produced r))).
      fold W in IH. rewrite Hrd, Hdiv in IH.
      cbn [advance state] in IH.
      specialize (IH Hsize Hw Hi' Ha' ltac:(lia) ltac:(nia) Hmax
                    ltac:(apply (grants_le _ _ Hheap); nia) ltac:(lia)).
      cbn zeta in IH. destruct IH as (IHo & IHout).
      cbn [after outcome output events].
      split; [exact IHo|].
      rewrite IHout, Hpre2, Hp, <- app_assoc. now rewrite firstn_skipn.
    + assert (Hlt : size_of rest < W) by lia.
      assert (Hall : produced r = rest).
      { rewrite Hp. apply firstn_all2. unfold size_of in *. lia. }
      rewrite (resize_within (su + size_of (produced r)) out2) by lia.
      cbn [after outcome output events].
      split; [reflexivity|].
      rewrite Hall in *.
      rewrite <- (firstn_skipn (Z.to_nat (su + size_of rest)) out2).
      rewrite Hpre2.
      replace (su + size_of rest)
        with (size_of (firstn (Z.to_nat su) out ++ rest))
        by (rewrite size_of_app, size_of_firstn; lia).
      apply resize_prefix.
Qed.

(** [Decompressor::decompress] on the stream of [data], when the ceiling
    has room for every resize of the loop: the call returns and the
    container holds exactly [data]. *)
Lemma decompress_finishes (decomp : Decompressor.t) (fuel : nat)
    (out data : list byte) (level : Z) (dst : deflate_state)
    (st : inflate_state) :
  deflateInit2_ level Z_DEFLATED Compressor.window_bits Compressor.mem_level
    Z_DEFAULT_STRATEGY = Some dst ->
  inflateInit2_ Decompressor.window_bits = Some st ->
  let stream := gzip_of level data in
  0 < size_of stream ->
  Decompressor.max_ decomp <= UINT_MAX ->
  (size_of data / (2 * size_of stream) + 1) * (2 * size_of stream)
  <= Decompressor.max_ decomp ->
  grants heap
    ((size_of data / (2 * size_of stream) + 1) * (2 * size_of stream)) ->
  size_of data / (2 * size_of stream) < Z.of_nat fuel ->
  let r := Decompressor.decompress kind decomp fuel out stream
             (size_of stream) in
  outcome r = Returns /\ output r = data.
Proof.
  intros Hdinit Hinit stream Hpos Hu Hceil Hheap Hfuel.
  unfold Decompressor.decompress. rewrite Hinit.
  pose proof (size_of_nonneg data) as Hdata.
  assert (Hq : 0 <= size_of data / (2 * size_of stream))
    by (apply Z.div_pos; lia).
  assert (H2 : 2 * size_of stream <= Decompressor.max_ decomp) by nia.
  replace (size_of stream * 2) with (2 * size_of stream) by lia.
  rewrite (wrap64_small (2 * size_of stream))
    by (unfold SIZE_MAX, UINT_MAX in *; lia).
  replace (UINT_MAX <? 2 * size_of stream) with false
    by (symmetry; apply Z.ltb_ge; lia).
  rewrite andb_false_r.
  replace (Decompressor.max_ decomp <? size_of stream) with false
    by (symmetry; apply Z.ltb_ge; lia).
  replace (Decompressor.max_ decomp <? 2 * size_of stream) with false
    by (symmetry; apply Z.ltb_ge; lia).
  cbn [orb].
  set (s := set_avail_in _ _).
  assert (Hrd : readable s = stream).
  { unfold readable, s. cbn [set_avail_in avail_in next_in].
    rewrite wrap32_small by lia. apply firstn_all2. unfold size_of. lia. }
  pose proof (size_of_nonneg out) as Hout.
  destruct (decompress_loop_finishes fuel data (Decompressor.max_ decomp)
              (size_of stream) s out 0) as (Ho & Hout'); try lia.
  - rewrite Hrd. cbn [state s set_avail_in].
    apply (inflating_init _ _ _ laws level dst); assumption.
  - cbn [avail_in s set_avail_in]. apply wrap32_range.
  - unfold SIZE_MAX, UINT_MAX in *. lia.
  - rewrite Z.add_0_l. exact Hheap.
  - cbn [after outcome output]. split; [exact Ho | exact Hout'].
Qed.

(** The other way round: when the ceiling has no room for the resizes the
    data needs, the loop ends in the exception of the driver. *)
Lemma decompress_loop_overflows (fuel : nat) :
  forall (rest : list byte) (max size : Z) (s : z_stream inflate_state)
         (out : list byte) (su : Z),
    0 < size -> 2 * size <= UINT_MAX ->
    inflating (state s) (readable s) rest ->
    0 <= avail_in s <= UINT_MAX ->
    0 <= su <= size_of out ->
    max < su + (size_of rest / (2 * size) + 1) * (2 * size) ->
    su <= max <= SIZE_MAX - UINT_MAX ->
    grants heap max ->
    (max - su) / (2 * size) < Z.of_nat fuel ->
    outcome (Decompressor.decompress_loop kind fuel max size s out su)
    = Throws (runtime_error output_too_large).
Proof.
  induction fuel as [|fuel IH];
    intros rest max size s out su Hsize Hw Hi Ha Hsu Hover Hmax Hheap Hfuel.
  - exfalso.
    assert (0 <= (max - su) / (2 * size)) by (apply Z.div_pos; lia).
    lia.
  - set (W := 2 * size) in *.
    pose proof (size_of_nonneg rest) as Hrest.
    cbn [Decompressor.decompress_loop].
    fold W. rewrite !(wrap64_small W) by (unfold UINT_MAX, SIZE_MAX in *; lia).
    rewrite !(wrap32_small W) by lia.
    rewrite !(wrap64_small (su + W))
      by (unfold SIZE_MAX, UINT_MAX in *; lia).
    destruct (Z.ltb_spec max (su + W)) as [Hstop|Hroom]; [reflexivity|].
    rewrite (resize_granted _ (su + W) out Hheap) by lia.
    rewrite (has_element0_nonempty kind (resize (su + W) out))
      by (rewrite size_of_resize; lia).
    unfold inflate. cbn [set_avail_out avail_out state].
    change (readable (set_avail_out s W)) with (readable s).
    destruct (inflating_step _ _ _ laws _ _ _ W Hi ltac:(lia))
      as (Hok & Hp & Hc & Hi').
    set (r := inflate_ (state s) (readable s) W Z_FINISH) in *.
    rewrite Hok.
    assert (Hq : 1 <= size_of rest / W).
    { destruct (Z_lt_le_dec (size_of rest / W) 1) as [Hlt|Hge]; [|exact Hge].
      exfalso. nia. }
    assert (Hge : W <= size_of rest).
    { pose proof (Z.mul_div_le (size_of rest) W ltac:(lia)). nia. }
    assert (Hsz : size_of (produced r) = W)
      by (rewrite Hp, size_of_firstn; lia).
    assert (Ha2 : avail_out (advance (set_avail_out s W) r) = 0).
    { cbn [advance avail_out set_avail_out]. rewrite Hsz.
      rewrite Z.sub_diag. reflexivity. }
    rewrite Ha2. rewrite Z.sub_0_r.
    rewrite !(wrap64_small W) by (unfold UINT_MAX, SIZE_MAX in *; lia).
    rewrite !(wrap64_small (su + W))
      by (unfold SIZE_MAX, UINT_MAX in *; lia).
    cbn [Z.eqb after outcome].
    destruct (readable_advance (set_avail_out s W) r Ha Hc) as (Hrd & Ha').
    change (readable (set_avail_out s W)) with (readable s) in Hrd.
    assert (Hsz' : size_of (skipn (Z.to_nat W) rest) = size_of rest - W)
      by (rewrite size_of_skipn; lia).
    assert (Hdiv : size_of (skipn (Z.to_nat W) rest) / W
                   = size_of rest / W - 1).
    { rewrite Hsz'.
      replace (size_of rest - W) with (size_of rest + (-1) * W) by lia.
      rewrite Z.div_add by lia. lia. }
    apply (IH (skipn (Z.to_nat W) rest)); fold W.
    + exact Hsize.
    + exact Hw.
    + rewrite Hrd. exact Hi'.
    + exact Ha'.
    + rewrite size_of_store; rewrite ?size_of_resize; lia.
    + rewrite Hdiv. lia.
    + lia.
    + exact Hheap.
    + replace (max - (su + W)) with (max - su + (-1) * W) by lia.
      rewrite Z.div_add by lia. lia.
Qed.

(** [Decompressor::decompress] on the stream of [data], when the ceiling has
    no room for the resizes of the loop: the call throws. *)
Lemma decompress_overflows (decomp : Decompressor.t)
    (out data : list byte) (level : Z) (dst : deflate_state)
    (st : inflate_state) :
  deflateInit2_ level Z_DEFLATED Compressor.window_bits Compressor.mem_level
    Z_DEFAULT_STRATEGY = Some dst ->
  inflateInit2_ Decompressor.window_bits = Some st ->
  let stream := gzip_of level data in
  0 < size_of stream ->
  0 <= Decompressor.max_ decomp <= UINT_MAX ->
  Decompressor.max_ decomp
  < (size_of data / (2 * size_of stream) + 1) * (2 * size_of stream) ->
  grants heap (Decompressor.max_ decomp) ->
  exists fuel,
    throws_runtime_error
      (Decompressor.decompress kind decomp fuel out stream (size_of stream)).
Proof.
  intros Hdinit Hinit stream Hpos Hu Hover Hheap.
  exists (S (Z.to_nat (Decompressor.max_ decomp / (2 * size_of stream)))).
  unfold Decompressor.decompress. rewrite Hinit.
  destruct (DEBUG && (UINT_MAX <? wrap64 (size_of stream * 2)))%bool;
    [eexists; reflexivity|].
  destruct (((Decompressor.max_ decomp <? size_of stream)
             || (Decompressor.max_ decomp <? wrap64 (size_of stream * 2)))%bool)
    eqn:Hcheck.
  - eexists. reflexivity.
  - apply orb_false_iff in Hcheck. destruct Hcheck as [H1 H2].
    apply Z.ltb_ge in H1. apply Z.ltb_ge in H2.
    replace (size_of stream * 2) with (2 * size_of stream) in H2 by lia.
    rewrite wrap64_small in H2 by (unfold SIZE_MAX, UINT_MAX in *; lia).
    set (s := set_avail_in _ _).
    assert (Hrd : readable s = stream).
    { unfold readable, s. cbn [set_avail_in avail_in next_in].
      rewrite wrap32_small by lia. apply firstn_all2. unfold size_of. lia. }
    pose proof (size_of_nonneg out) as Hout.
    exists output_too_large. cbn [after outcome].
    apply (decompress_loop_overflows _ data); try lia.
    + rewrite Hrd. cbn [state s set_avail_in].
      apply (inflating_init _ _ _ laws level dst); assumption.
    + cbn [avail_in s set_avail_in]. apply wrap32_range.
    + unfold SIZE_MAX, UINT_MAX in *. lia.
    + exact Hheap.
    + rewrite Z.sub_0_r.
      assert (0 <= Decompressor.max_ decomp / (2 * size_of stream))
        by (apply Z.div_pos; lia).
      lia.
Qed.

End DecompressLoop.

(** ** The reference codec follows the protocol *)

Lemma stored_window_respected : window_respected Stored.codec.
Proof.
  split; intros st inp w flush Hw; cbn.
  - unfold Stored.deflate. cbn [produced].
    rewrite size_of_firstn by exact Hw. lia.
  - unfold Stored.inflate.
    destruct (match st with
              | Stored.Start => Stored.decode inp
              | Stored.Draining p e => (p, e)
              end) as [pending e].
    cbn [produced]. rewrite size_of_firstn by exact Hw. lia.
Qed.


Lemma stored_decode_body (data : list byte) :
  Stored.decode_body (flat_map (fun b => [x01; b]) data ++ [x00]) =
  (data, Stored.End).
Proof.
  induction data as [|b d IH]; [reflexivity|].
  cbn [flat_map app Stored.decode_body].
  change (Byte.eqb x01 x00) with false. change (Byte.eqb x01 x01) with true.
  cbn iota. now rewrite IH.
Qed.

Lemma stored_decode_encode (data : list byte) :
  Stored.decode (Stored.encode data) = (data, Stored.End).
Proof.
  unfold Stored.encode. cbn [app Stored.decode].
  change (Byte.eqb x1f x1f && Byte.eqb x8b x8b) with true. cbn iota.
  apply stored_decode_body.
Qed.


Lemma stored_inflate_finishes :
  inflate_finishes Stored.codec Stored.gzip_of Stored.inflating.
Proof.
  split.
  - intros level dst st data _ H. cbn in H. injection H as <-.
    cbn. apply stored_decode_encode.
  - intros st inp rest w Hi Hw. cbn.
    unfold Stored.inflate.
    assert (E : match st with
                | Stored.Start => Stored.decode inp
                | Stored.Draining p e => (p, e)
                end = (rest, Stored.End)).
    { destruct st as [|p e]; cbn in Hi; [exact Hi|].
      destruct Hi as [-> ->]. reflexivity. }
    rewrite E. cbn [ret produced consumed step_state].
    split; [destruct (size_of rest <=? w); reflexivity|].
    split; [reflexivity|].
    split; [destruct st; lia|].
    cbn. split; reflexivity.
Qed.


Lemma stored_starved_inflate_is_quiet : starved_inflate_is_quiet Stored.codec.
Proof.
  exists (fun st =>
            st = Stored.Start \/ st = Stored.Draining [] Stored.Truncated).
  split.
  - intros st H. left. cbn in H. now injection H as <-.
  - intros st [-> | ->]; cbn; (split; [reflexivity | right; reflexivity]).
Qed.

(** ** The compress driver *)





(** A run with two iterations: 2000 bytes, a stream of 4003 bytes, windows of
    2024 bytes. *)
Example compress_two_iterations :
  let r := compress_string (codec := Stored.codec) (build := release_build) (heap := roomy) 2 (repeat x61 2000) 6 in
  outcome r = Returns /\
  size_of (output r) = 4003 /\
  events r =
  [Ev_deflateInit2 6 true;
   Ev_resize 2024; Ev_deflate 2024 2024;
   Ev_resize 4048; Ev_deflate 2024 1979;
   Ev_deflateEnd; Ev_resize 4003].
Proof. vm_compute. repeat split. Qed.

(** ** The round trip *)


(** The same in a build with [DEBUG]. *)
Example round_trip_fails_under_small_ceiling_debug :
  let c := [x1f; x8b; x01; x68; x01; x65; x01; x6c; x01; x6c; x01; x6f; x00] in
  returned (compress_string (codec := Stored.codec) (build := debug_build) (heap := roomy)
              1 hello (-1)) = Some c /\
  forall fuel,
    throws_runtime_error
      (decompress_string (codec := Stored.codec) (build := debug_build) (heap := roomy)
         fuel c 25).
Proof.
  cbn zeta. split; [vm_compute; reflexivity|].
  intros fuel. eexists. reflexivity.
Qed.



(** ** The ceiling *)

Section Ceiling.

Context {codec : Zlib} {build : Build} {heap : Heap}.
Hypothesis window : window_respected codec.
Variable kind : container.

(** What is left of the window after a call that respects it. *)
Lemma avail_out_after_inflate (s : z_stream inflate_state) (w : Z) :
  0 <= w <= UINT_MAX ->
  let r := inflate_ (state s) (readable s) w Z_FINISH in
  avail_out (advance (set_avail_out s w) r) = w - size_of (produced r) /\
  0 <= size_of (produced r) <= w.
Proof.
  intros Hw r.
  pose proof (proj2 window (state s) (readable s) w Z_FINISH ltac:(lia)) as Hp.
  fold r in Hp. pose proof (size_of_nonneg (produced r)).
  cbn [advance avail_out set_avail_out].
  split; [apply wrap32_small; lia | lia].
Qed.

(** Inside the loop of [decompress] no resize goes beyond the ceiling. *)
Lemma decompress_loop_ceiling (fuel : nat) :
  forall (max size : Z) (s : z_stream inflate_state) (out : list byte)
         (su : Z),
    max <= PTRDIFF_MAX ->
    0 <= su <= max ->
    wrap64 (2 * size) <= max ->
    forall n,
      In (Ev_resize n)
         (events (Decompressor.decompress_loop kind fuel max size s out su)) ->
      0 <= n <= max.
Proof.
  induction fuel as [|fuel IH]; intros max size s out su Hmax Hsu HW n Hin.
  - destruct Hin.
  - cbn [Decompressor.decompress_loop] in Hin.
    pose proof (wrap64_range (2 * size)) as HW0.
    set (W := wrap64 (2 * size)) in *.
    rewrite (wrap64_small (su + W)) in Hin
      by (unfold SIZE_MAX, PTRDIFF_MAX in *; lia).
    destruct (Z.ltb_spec max (su + W)) as [Hover|Hfits].
    + cbn in Hin. destruct Hin as [E|[]]. discriminate E.
    + destruct (resize_throws (su + W) out) as [e|];
        [cbn in Hin; destruct Hin as [E|[]]; discriminate E|].
      destruct (has_element0 kind (resize (su + W) out));
        [|cbn in Hin; destruct Hin as [E|[]]; injection E as <-; lia].
      unfold inflate in Hin. cbn [set_avail_out avail_out state] in Hin.
      change (readable (set_avail_out s (wrap32 W))) with (readable s) in Hin.
      pose proof (wrap32_range W) as Hw32.
      assert (Hle : wrap32 W <= W).
      { unfold wrap32. apply Z.mod_le; lia. }
      destruct (avail_out_after_inflate s (wrap32 W) Hw32) as (Ha2 & Hp).
      set (r := inflate_ (state s) (readable s) (wrap32 W) Z_FINISH) in *.
      rewrite Ha2 in Hin.
      cbn [after events app] in Hin.
      destruct Hin as [E|[E|Hin]]; [injection E as <-; lia | discriminate E|].
      destruct (Decompressor.is_failure (ret r)).
      * destruct (msg (advance (set_avail_out s (wrap32 W)) r));
          cbn in Hin; [destruct Hin as [E|[]]; discriminate E | destruct Hin].
      * set (written := W - (wrap32 W - size_of (produced r))) in *.
        assert (Hwr : 0 <= written <= W) by (subst written; lia).
        rewrite (wrap64_small written) in Hin
          by (unfold SIZE_MAX, PTRDIFF_MAX in *; lia).
        rewrite !(wrap64_small (su + written)) in Hin
          by (unfold SIZE_MAX, PTRDIFF_MAX in *; lia).
        destruct (wrap32 W - size_of (produced r) =? 0).
        -- apply IH in Hin; [exact Hin | exact Hmax | lia | exact HW].
        -- destruct (resize_throws _ _) as [e|]; cbn in Hin;
             [destruct Hin as [E|[]]; discriminate E|].
           destruct Hin as [E|[E|[]]];
             [injection E as <-; lia | discriminate E].
Qed.

(** What the loop of [decompress] returns is within the ceiling. *)
Lemma decompress_loop_returns_within (fuel : nat) :
  forall (max size : Z) (s : z_stream inflate_state) (out : list byte)
         (su : Z),
    max <= PTRDIFF_MAX ->
    0 <= su <= max ->
    wrap64 (2 * size) <= max ->
    let r := Decompressor.decompress_loop kind fuel max size s out su in
    outcome r = Returns -> size_of (output r) <= max.
Proof.
  induction fuel as [|fuel IH]; intros max size s out su Hmax Hsu HW r Hret;
    subst r.
  - discriminate Hret.
  - cbn [Decompressor.decompress_loop] in *.
    pose proof (wrap64_range (2 * size)) as HW0.
    set (W := wrap64 (2 * size)) in *.
    rewrite (wrap64_small (su + W)) in *
      by (unfold SIZE_MAX, PTRDIFF_MAX in *; lia).
    destruct (Z.ltb_spec max (su + W)) as [Hover|Hfits];
      [discriminate Hret|].
    destruct (resize_throws (su + W) out) as [e|]; [discriminate Hret|].
    destruct (has_element0 kind (resize (su + W) out));
      [|discriminate Hret].
    unfold inflate in *. cbn [set_avail_out avail_out state] in *.
    change (readable (set_avail_out s (wrap32 W))) with (readable s) in *.
    pose proof (wrap32_range W) as Hw32.
    assert (Hle : wrap32 W <= W).
    { unfold wrap32. apply Z.mod_le; lia. }
    destruct (avail_out_after_inflate s (wrap32 W) Hw32) as (Ha2 & Hp).
    set (r := inflate_ (state s) (readable s) (wrap32 W) Z_FINISH) in *.
    rewrite Ha2 in *.
    cbn [after outcome output] in *.
    destruct (Decompressor.is_failure (ret r)).
    + destruct (msg (advance (set_avail_out s (wrap32 W)) r));
        discriminate Hret.
    + set (written := W - (wrap32 W - size_of (produced r))) in *.
      assert (Hwr : 0 <= written <= W) by (subst written; lia).
      rewrite (wrap64_small written) in *
        by (unfold SIZE_MAX, PTRDIFF_MAX in *; lia).
      rewrite !(wrap64_small (su + written)) in *
        by (unfold SIZE_MAX, PTRDIFF_MAX in *; lia).
      destruct (wrap32 W - size_of (produced r) =? 0).
      * apply IH; [exact Hmax | lia | exact HW | exact Hret].
      * destruct (resize_throws _ _) as [e|]; [discriminate Hret|].
        cbn [output]. rewrite size_of_resize by lia. lia.
Qed.

Lemma decompress_ceiling (decomp : Decompressor.t) (fuel : nat)
    (out data : list byte) (size : Z) :
  Decompressor.max_ decomp <= PTRDIFF_MAX ->
  0 <= size ->
  let r := Decompressor.decompress kind decomp fuel out data size in
  (forall n, In (Ev_resize n) (events r) ->
             0 <= n <= Decompressor.max_ decomp) /\
  (forall w c m n, In (Ev_inflate w c m n) (events r) ->
                 size <= Decompressor.max_ decomp /\
                 2 * size <= Decompressor.max_ decomp) /\
  (outcome r = Returns -> size_of (output r) <= Decompressor.max_ decomp).
Proof.
  intros Hmax Hsize r.
  destruct (((Decompressor.max_ decomp <? size)
             || (Decompressor.max_ decomp <? wrap64 (size * 2)))%bool)
    eqn:Hcheck.
  - destruct (decompress_refused kind decomp fuel out data size Hcheck)
      as (_ & [_ Hno] & Hnr & _).
    fold r in Hno, Hnr.
    destruct (decompress_refused kind decomp fuel out data size Hcheck)
      as ([what Hthrow] & _).
    fold r in Hthrow.
    split; [intros n Hin; elim (Hnr n Hin)|].
    split; [intros w c m n Hin; elim (Hno w c m n Hin)|].
    rewrite Hthrow. discriminate.
  - apply orb_false_iff in Hcheck. destruct Hcheck as [H1 H2].
    apply Z.ltb_ge in H1. apply Z.ltb_ge in H2.
    assert (HW : wrap64 (size * 2) = 2 * size).
    { rewrite <- (wrap64_small (2 * size))
        by (unfold SIZE_MAX, PTRDIFF_MAX in *; lia).
      f_equal. lia. }
    rewrite HW in H2.
    assert (HW2 : wrap64 (2 * size) <= Decompressor.max_ decomp).
    { rewrite wrap64_small by (unfold SIZE_MAX, PTRDIFF_MAX in *; lia). lia. }
    subst r. unfold Decompressor.decompress.
    destruct (inflateInit2_ Decompressor.window_bits) as [st|].
    + rewrite HW.
      destruct (DEBUG && (UINT_MAX <? 2 * size))%bool.
      { cbn [after events outcome output app].
        split; [intros n [E|[E|[]]]; discriminate E|].
        split; [intros; lia | discriminate]. }
      replace (Decompressor.max_ decomp <? size) with false
        by (symmetry; apply Z.ltb_ge; lia).
      replace (Decompressor.max_ decomp <? 2 * size) with false
        by (symmetry; apply Z.ltb_ge; lia).
      cbn [orb after events outcome output app].
      split; [|split; [intros; lia|]].
      * intros n [E|Hin]; [discriminate E|].
        apply decompress_loop_ceiling in Hin;
          [exact Hin | exact Hmax | lia | exact HW2].
      * apply decompress_loop_returns_within; [exact Hmax | lia | exact HW2].
    + cbn. split; [intros n [E|[]]; discriminate E|].
      split; [intros w c m n [E|[]]; discriminate E | discriminate].
Qed.

End Ceiling.

(** A call of [deflate] is only made on an input within the ceiling. *)
Lemma compress_input_ceiling {codec : Zlib} {build : Build} {heap : Heap} (kind : container)
    (comp : Compressor.t) (fuel : nat) (out data : list byte) (size : Z) :
  forall w n,
    In (Ev_deflate w n)
       (events (Compressor.compress kind comp fuel out data size)) ->
    size <= Compressor.max_ comp.
Proof.
  intros w n Hin.
  destruct (Z.ltb_spec (Compressor.max_ comp) size) as [Hover|Hfits];
    [|exact Hfits].
  destruct (compress_oversized kind comp fuel out data size Hover)
    as (_ & Hev & _).
  rewrite Hev in Hin. destruct Hin.
Qed.

(** C3 as stated fails. A [Compressor] with a ceiling of 100 bytes, given the
    empty input, resizes its output container to 1024 bytes and returns. *)
Lemma compress_output_exceeds_ceiling :
  let comp := Compressor.new Z_DEFAULT_COMPRESSION 100 in
  let r := Compressor.compress (codec := Stored.codec)
             (build := release_build) (heap := roomy) std_string comp 1 [] [] 0 in
  outcome r = Returns /\
  In (Ev_resize 1024) (events r) /\
  Compressor.max_ comp < 1024.
Proof.
  cbn zeta. split; [vm_compute; reflexivity|].
  split; [vm_compute; tauto | vm_compute; reflexivity].
Qed.

(** The same in a build with [DEBUG]. *)
Example compress_output_exceeds_ceiling_debug :
  let comp := Compressor.new Z_DEFAULT_COMPRESSION 100 in
  let r := Compressor.compress (codec := Stored.codec)
             (build := debug_build) (heap := roomy) std_string comp 1 [] [] 0 in
  outcome r = Returns /\ In (Ev_resize 1024) (events r).
Proof.
  cbn zeta. split; [vm_compute; reflexivity | vm_compute; tauto].
Qed.

(** C3, amended. In [decompress] the input size, twice the input size and
    every size the output container is resized to stay within the ceiling of
    the [Decompressor], for every ceiling up to [PTRDIFF_MAX] and every codec
    that respects its output window. In [compress] the ceiling of the
    [Compressor] bounds the input size of every run that reaches the codec;
    it does not bound the output container. *)
Theorem ceiling_invariant {codec : Zlib} {build : Build} {heap : Heap} (window : window_respected codec) :
  (forall kind (decomp : Decompressor.t) fuel out data size,
      Decompressor.max_ decomp <= PTRDIFF_MAX ->
      0 <= size ->
      let r := Decompressor.decompress kind decomp fuel out data size in
      (forall n, In (Ev_resize n) (events r) ->
                 0 <= n <= Decompressor.max_ decomp) /\
      (forall w c m n, In (Ev_inflate w c m n) (events r) ->
                     size <= Decompressor.max_ decomp /\
                     2 * size <= Decompressor.max_ decomp) /\
      (outcome r = Returns ->
       size_of (output r) <= Decompressor.max_ decomp)) /\
  (forall kind (comp : Compressor.t) fuel out data size w n,
      In (Ev_deflate w n)
         (events (Compressor.compress kind comp fuel out data size)) ->
      size <= Compressor.max_ comp).
Proof.
  split.
  - intros kind decomp fuel out data size Hmax Hsize.
    apply decompress_ceiling; assumption.
  - intros kind comp fuel out data size w n. apply compress_input_ceiling.
Qed.

Lemma ceiling_invariant_witness :
  (let r := Decompressor.decompress (codec := Stored.codec) (build := release_build) (heap := roomy) std_string
              (Decompressor.new 30) 2 [] (Stored.gzip_of 6 hello)
              (size_of (Stored.gzip_of 6 hello)) in
   (forall n, In (Ev_resize n) (events r) -> 0 <= n <= 30) /\
   (forall w c m n, In (Ev_inflate w c m n) (events r) ->
                  size_of (Stored.gzip_of 6 hello) <= 30 /\
                  2 * size_of (Stored.gzip_of 6 hello) <= 30) /\
   (outcome r = Returns -> size_of (output r) <= 30)) /\
  (In (Ev_deflate 1026 13)
      (events (Compressor.compress (codec := Stored.codec) (build := release_build) (heap := roomy) std_string
                 (Compressor.new 6 10) 1 [] hello (size_of hello))) /\
   size_of hello <= 10).
Proof.
  split.
  - apply (proj1 (ceiling_invariant (codec := Stored.codec) (build := release_build) (heap := roomy)
                    stored_window_respected)
             std_string (Decompressor.new 30) 2%nat []
             (Stored.gzip_of 6 hello) (size_of (Stored.gzip_of 6 hello))).
    + vm_compute. discriminate.
    + vm_compute. discriminate.
  - assert (Hin : In (Ev_deflate 1026 13)
                     (events (Compressor.compress (codec := Stored.codec) (build := release_build) (heap := roomy) std_string
                                (Compressor.new 6 10) 1 [] hello
                                (size_of hello))))
      by (vm_compute; tauto).
    split; [exact Hin|].
    exact (proj2 (ceiling_invariant (codec := Stored.codec) (build := release_build) (heap := roomy)
                    stored_window_respected)
             std_string (Compressor.new 6 10) 1%nat [] hello (size_of hello)
             1026 13 Hin).
Defined.

(** ** Termination *)

Section Termination.

Context {codec : Zlib} {build : Build} {heap : Heap}.

(** On an input of size 0 the window has size 0: a call that respects it
    writes nothing, [avail_out] is 0 afterwards, and unless the codec
    reports a failure the loop goes round again in the same state. *)
Lemma decompress_loop_starved (window : window_respected codec)
    (idle : inflate_state -> Prop)
    (quiet : forall st, idle st ->
               let r := inflate_ st [] 0 Z_FINISH in
               Decompressor.is_failure (ret r) = false /\
               idle (step_state r))
    (max : Z) (Hmax : 0 <= max) (fuel : nat) :
  forall (s : z_stream inflate_state) (out : list byte),
    next_in s = [] -> idle (state s) ->
    outcome (Decompressor.decompress_loop std_string fuel max 0 s out 0)
    = OutOfFuel.
Proof.
  induction fuel as [|fuel IH]; intros s out Hin Hidle; [reflexivity|].
  cbn [Decompressor.decompress_loop].
  change (wrap64 (2 * 0)) with 0. change (wrap64 (0 + 0)) with 0.
  change (wrap32 0) with 0.
  replace (max <? 0) with false by (symmetry; apply Z.ltb_ge; exact Hmax).
  rewrite (resize_within 0 out) by apply size_of_nonneg.
  change (has_element0 std_string (resize 0 out)) with true. cbn iota.
  unfold inflate. cbn [set_avail_out avail_out state].
  assert (Hrd : readable (set_avail_out s 0) = []).
  { unfold readable. cbn [set_avail_out next_in]. rewrite Hin.
    apply firstn_nil. }
  rewrite Hrd.
  destruct (quiet (state s) Hidle) as (Hok & Hidle').
  pose proof (proj2 window (state s) [] 0 Z_FINISH ltac:(lia)) as Hp.
  set (r := inflate_ (state s) [] 0 Z_FINISH) in *.
  pose proof (size_of_nonneg (produced r)) as Hp0.
  assert (Ha2 : avail_out (advance (set_avail_out s 0) r) = 0).
  { cbn [advance avail_out set_avail_out].
    replace (size_of (produced r)) with 0 by lia. reflexivity. }
  rewrite Hok, Ha2.
  change (wrap64 (0 + wrap64 (0 - 0))) with 0.
  cbn [Z.eqb after outcome].
  apply IH.
  - cbn [advance next_in set_avail_out]. rewrite Hin. apply skipn_nil.
  - exact Hidle'.
Qed.

Variable kind : container.

(** On an input that is not empty the loop of [decompress] comes back:
    every iteration that is followed by another one has filled a window of
    [2 * size] bytes, and the ceiling stops that. *)
Lemma decompress_loop_terminates (max size : Z) (n : nat) :
  0 < size -> 2 * size <= max -> max <= PTRDIFF_MAX ->
  forall (s : z_stream inflate_state) (out : list byte) (su : Z),
    0 <= su <= max ->
    max - su < Z.of_nat n * (2 * size) ->
    outcome (Decompressor.decompress_loop kind n max size s out su)
    <> OutOfFuel.
Proof.
  intros Hsize HW Hmax.
  induction n as [|n IH]; intros s out su Hsu Hn; [lia|].
  cbn [Decompressor.decompress_loop].
  rewrite !(wrap64_small (2 * size))
    by (unfold SIZE_MAX, PTRDIFF_MAX in *; lia).
  rewrite (wrap64_small (su + 2 * size))
    by (unfold SIZE_MAX, PTRDIFF_MAX in *; lia).
  destruct (Z.ltb_spec max (su + 2 * size)) as [Hover|Hfits];
    [discriminate|].
  destruct (resize_throws (su + 2 * size) out) as [e|]; [discriminate|].
  destruct (has_element0 kind (resize (su + 2 * size) out));
    [|discriminate].
  destruct (inflate (set_avail_out s (wrap32 (2 * size))) Z_FINISH)
    as [[c s2] bytes].
  cbn [after outcome].
  destruct (Decompressor.is_failure c).
  - destruct (msg s2); discriminate.
  - destruct (Z.eqb_spec (avail_out s2) 0) as [E|E];
      [|destruct (resize_throws _ _); discriminate].
    rewrite E. rewrite Z.sub_0_r.
    rewrite (wrap64_small (2 * size))
      by (unfold SIZE_MAX, PTRDIFF_MAX in *; lia).
    rewrite (wrap64_small (su + 2 * size))
      by (unfold SIZE_MAX, PTRDIFF_MAX in *; lia).
    apply IH; lia.
Qed.

Lemma decompress_terminates_nonempty (decomp : Decompressor.t)
    (out data : list byte) (size : Z) :
  0 < size <= PTRDIFF_MAX ->
  Decompressor.max_ decomp <= PTRDIFF_MAX ->
  exists fuel,
    outcome (Decompressor.decompress kind decomp fuel out data size)
    <> OutOfFuel.
Proof.
  intros Hsize Hmax.
  exists (S (Z.to_nat (Decompressor.max_ decomp))).
  unfold Decompressor.decompress.
  destruct (inflateInit2_ Decompressor.window_bits) as [st|];
    [|discriminate].
  cbn [after outcome].
  replace (size * 2) with (2 * size) by lia.
  rewrite (wrap64_small (2 * size))
    by (unfold SIZE_MAX, PTRDIFF_MAX in *; lia).
  destruct (DEBUG && (UINT_MAX <? 2 * size))%bool; [discriminate|].
  destruct (Z.ltb_spec (Decompressor.max_ decomp) size);
    [discriminate|].
  destruct (Z.ltb_spec (Decompressor.max_ decomp) (2 * size));
    [discriminate|].
  cbn [orb].
  apply decompress_loop_terminates; try lia.
  nia.
Qed.

End Termination.

(** With a codec that follows the protocol the loop of [compress] comes
    back, whatever the free store grants: every iteration that is followed
    by another one has taken a window of [increase] bytes off the stream. *)
Lemma compress_loop_comes_back {codec : Zlib} {heap : Heap}
    (gzip_of : Z -> list byte -> list byte)
    (deflating : deflate_state -> list byte -> list byte -> Prop)
    (laws : deflate_finishes codec gzip_of deflating)
    (kind : container) (fuel : nat) :
  forall (rest : list byte) (size : Z) (s : z_stream deflate_state)
         (out : list byte) (sc : Z),
    0 <= size -> size / 2 + 1024 <= UINT_MAX ->
    deflating (state s) (readable s) rest ->
    0 <= avail_in s <= UINT_MAX ->
    0 <= sc ->
    sc + size_of rest + (size / 2 + 1024) <= SIZE_MAX ->
    size_of rest / (size / 2 + 1024) < Z.of_nat fuel ->
    outcome (Compressor.compress_loop kind fuel size s out sc) <> OutOfFuel.
Proof.
  induction fuel as [|fuel IH];
    intros rest size s out sc Hsize Hinc Hd Ha Hsc Hmax Hfuel.
  - exfalso. pose proof (size_of_nonneg rest).
    assert (0 <= size / 2) by (apply Z.div_pos; lia).
    assert (0 <= size_of rest / (size / 2 + 1024)) by (apply Z.div_pos; lia).
    lia.
  - set (inc := size / 2 + 1024) in *.
    assert (Hinc0 : 0 < inc)
      by (subst inc; assert (0 <= size / 2) by (apply Z.div_pos; lia); lia).
    pose proof (size_of_nonneg rest) as Hrest.
    cbn [Compressor.compress_loop].
    fold inc. unfold deflate. cbn [set_avail_out avail_out state].
    change (readable (set_avail_out s (wrap32 (wrap64 inc)))) with (readable s).
    rewrite (wrap64_small inc) by (unfold UINT_MAX, SIZE_MAX in *; lia).
    rewrite (wrap32_small inc) by lia.
    rewrite !(wrap64_small (sc + inc)) by (unfold SIZE_MAX in *; lia).
    destruct (if size_of out <? sc + inc
              then resize_throws (sc + inc) out else None) as [e|];
      [discriminate|].
    destruct (has_element0 kind _); [|discriminate].
    destruct (deflating_step _ _ _ laws _ _ _ inc Hd ltac:(lia))
      as (Hp & Hc & Hd').
    set (r := deflate_ (state s) (readable s) inc Z_FINISH) in *.
    assert (Hsz : size_of (produced r) = Z.min inc (size_of rest))
      by (rewrite Hp; apply size_of_firstn; lia).
    assert (Ha2 : avail_out (advance (set_avail_out s inc) r)
                  = inc - size_of (produced r)).
    { cbn [advance avail_out set_avail_out]. apply wrap32_small. lia. }
    rewrite Ha2.
    replace (inc - (inc - size_of (produced r))) with (size_of (produced r))
      by lia.
    rewrite (wrap64_small (size_of (produced r)))
      by (unfold SIZE_MAX in *; lia).
    rewrite !(wrap64_small (sc + size_of (produced r)))
      by (unfold SIZE_MAX in *; lia).
    destruct (readable_advance (set_avail_out s inc) r Ha Hc) as (Hrd & Ha').
    change (readable (set_avail_out s inc)) with (readable s) in Hrd.
    cbn [after outcome].
    destruct (Z.eqb_spec (inc - size_of (produced r)) 0) as [Hfull|Hlast];
      [|destruct (resize_throws _ _); discriminate].
    assert (Hge : inc <= size_of rest) by lia.
    assert (Hsz' : size_of (skipn (Z.to_nat inc) rest) = size_of rest - inc)
      by (rewrite size_of_skipn; lia).
    apply (IH (skipn (Z.to_nat inc) rest)); fold inc.
    + exact Hsize.
    + exact Hinc.
    + rewrite Hrd. exact Hd'.
    + exact Ha'.
    + lia.
    + lia.
    + rewrite Hsz'.
      replace (size_of rest - inc) with (size_of rest + (-1) * inc) by lia.
      rewrite Z.div_add by lia. lia.
Qed.

(** With a codec that follows the protocol, [compress] comes back on every
    input a [Compressor] with a ceiling of at most [UINT_MAX] is given,
    whatever the free store grants: it returns, or it throws. *)
Lemma compress_terminates {codec : Zlib} {build : Build} {heap : Heap}
    (gzip_of : Z -> list byte -> list byte)
    (deflating : deflate_state -> list byte -> list byte -> Prop)
    (laws : deflate_finishes codec gzip_of deflating)
    (kind : container) (comp : Compressor.t) (out data : list byte)
    (size : Z) :
  0 <= size -> Compressor.max_ comp <= UINT_MAX ->
  exists fuel,
    outcome (Compressor.compress kind comp fuel out data size) <> OutOfFuel.
Proof.
  intros Hsize Hmax.
  set (stream := gzip_of (Compressor.level_ comp)
                   (firstn (Z.to_nat size) data)).
  exists (S (Z.to_nat (size_of stream / (size / 2 + 1024)))).
  unfold Compressor.compress.
  destruct (DEBUG && (UINT_MAX <? size))%bool; [discriminate|].
  destruct (Z.ltb_spec (Compressor.max_ comp) size) as [Hover|Hfits];
    [discriminate|].
  destruct (deflateInit2_ (Compressor.level_ comp) Z_DEFLATED
              Compressor.window_bits Compressor.mem_level
              Z_DEFAULT_STRATEGY) as [st|] eqn:Hinit; [|discriminate].
  cbn [after outcome].
  assert (Hhalf : 0 <= size / 2 /\ 2 * (size / 2) <= size).
  { split; [apply Z.div_pos; lia | apply Z.mul_div_le; lia]. }
  pose proof (deflating_bound _ _ _ laws (Compressor.level_ comp)
                (firstn (Z.to_nat size) data)) as Hb.
  fold stream in Hb.
  assert (Hin : size_of (firstn (Z.to_nat size) data) <= size)
    by (rewrite size_of_firstn; lia).
  apply (compress_loop_comes_back gzip_of deflating laws kind _ stream).
  - exact Hsize.
  - unfold UINT_MAX in *. lia.
  - unfold readable. cbn [avail_in next_in state].
    rewrite wrap32_small by lia.
    apply (deflating_init _ _ _ laws). exact Hinit.
  - cbn [avail_in]. apply wrap32_range.
  - lia.
  - unfold SIZE_MAX, UINT_MAX in *. lia.
  - assert (0 <= size_of stream / (size / 2 + 1024))
      by (apply Z.div_pos; [apply size_of_nonneg | lia]).
    rewrite Nat2Z.inj_succ, Z2Nat.id by assumption. lia.
Qed.

(** C4 fails on the empty input of [decompress]. With a codec that respects
    its window and reports a call without input and without output space as
    [Z_BUF_ERROR], the loop of [gzip::decompress] on the empty buffer is
    still running after any number of iterations, for the pointer and the
    [std::string] function and every ceiling: the call neither returns nor
    throws. The [std::vector<uint8_t>] function takes the address of element
    0 of an empty vector in its first iteration, which is undefined. *)
Theorem decompress_empty_input_never_comes_back {codec : Zlib} {build : Build} {heap : Heap}
    (window : window_respected codec) (quiet : starved_inflate_is_quiet codec)
    (st : inflate_state) (max_bytes : Z) (fuel : nat) :
  inflateInit2_ Decompressor.window_bits = Some st ->
  0 <= max_bytes ->
  outcome (decompress_string fuel [] max_bytes) = OutOfFuel /\
  outcome (decompress fuel [] 0 max_bytes) = OutOfFuel /\
  outcome (decompress_vector (S fuel) [] max_bytes) = Undefined.
Proof.
  intros Hinit Hmax.
  destruct quiet as (idle & Hstart & Hstep).
  assert (Hcheck : (max_bytes <? 0) = false)
    by (apply Z.ltb_ge; exact Hmax).
  assert (H : outcome (Decompressor.decompress std_string
                         (Decompressor.new max_bytes) fuel [] [] 0)
              = OutOfFuel).
  { unfold Decompressor.decompress. rewrite Hinit.
    cbn [Decompressor.max_]. change (wrap64 (0 * 2)) with 0.
    change (UINT_MAX <? 0) with false. rewrite andb_false_r.
    rewrite Hcheck. cbn [orb after outcome].
    apply (decompress_loop_starved window idle Hstep max_bytes Hmax).
    - reflexivity.
    - cbn [set_avail_in state]. apply Hstart. exact Hinit. }
  split; [exact H|]. split; [exact H|].
  unfold decompress_vector, Decompressor.decompress. rewrite Hinit.
  change (size_of []) with 0. cbn [Decompressor.max_].
  change (wrap64 (0 * 2)) with 0.
  change (UINT_MAX <? 0) with false. rewrite andb_false_r. rewrite Hcheck.
  cbn [orb after outcome Decompressor.decompress_loop].
  change (wrap64 (0 + wrap64 (2 * 0))) with 0. rewrite Hcheck.
  reflexivity.
Qed.

Lemma decompress_empty_input_never_comes_back_witness :
  outcome (decompress_string (codec := Stored.codec) (build := release_build) (heap := roomy) 1000 [] default_max_bytes)
  = OutOfFuel /\
  outcome (decompress (codec := Stored.codec) (build := release_build) (heap := roomy) 1000 [] 0 default_max_bytes)
  = OutOfFuel /\
  outcome (decompress_vector (codec := Stored.codec) (build := release_build) (heap := roomy) 1001 [] default_max_bytes)
  = Undefined.
Proof.
  apply (decompress_empty_input_never_comes_back (codec := Stored.codec) (build := release_build) (heap := roomy)
           stored_window_respected stored_starved_inflate_is_quiet
           Stored.Start default_max_bytes 1000).
  - reflexivity.
  - vm_compute. discriminate.
Defined.

(** ** Failures of the codec *)

Lemma decompress_loop_failures {codec : Zlib} {heap : Heap}
    (kind : container) (fuel : nat) :
  forall (max size : Z) (s : z_stream inflate_state) (out : list byte)
         (su : Z),
    let r := Decompressor.decompress_loop kind fuel max size s out su in
    (forall w c m n,
        In (Ev_inflate w c m n) (events r) ->
        Decompressor.is_failure c = true ->
        outcome r = failure_outcome m) /\
    ((forall w c m n,
         In (Ev_inflate w c m n) (events r) ->
         Decompressor.is_failure c = false) ->
     forall what,
       outcome r = Throws (runtime_error what) ->
       what = output_too_large).
Proof.
  induction fuel as [|fuel IH]; intros max size s out su.
  - cbn. split; [intros w c m n [] | intros _ what E; discriminate E].
  - cbn [Decompressor.decompress_loop].
    destruct (max <? wrap64 (su + wrap64 (2 * size))).
    + cbn. split.
      * intros w c m n [E|[]]. discriminate E.
      * intros _ what E. now injection E as <-.
    + destruct (resize_throws _ out) as [e|] eqn:Hrt.
      { apply resize_throws_alloc in Hrt. cbn. split.
        - intros w c m n [E|[]]. discriminate E.
        - intros _ what E. destruct Hrt as [[-> | ->] _]; discriminate E. }
      destruct (has_element0 kind
                  (resize (wrap64 (su + wrap64 (2 * size))) out)).
      2:{ cbn. split.
          - intros w c m n [E|[]]. discriminate E.
          - intros _ what E. discriminate E. }
      destruct (inflate (set_avail_out s (wrap32 (wrap64 (2 * size)))) Z_FINISH)
        as [[c s2] bytes].
      cbn [after outcome events app].
      destruct (Decompressor.is_failure c) eqn:Hc.
      * split.
        -- intros w c' m n [E|[E|Hin]] Hf; [discriminate E| |].
           ++ injection E as _ _ <- _. destruct (msg s2); reflexivity.
           ++ destruct (msg s2); cbn in Hin;
                [destruct Hin as [E|[]]; discriminate E | destruct Hin].
        -- intros Hall. exfalso.
           specialize (Hall _ _ _ _ (or_intror (or_introl eq_refl))).
           congruence.
      * destruct (avail_out s2 =? 0).
        -- destruct (IH max size s2
                       (store su bytes
                          (resize (wrap64 (su + wrap64 (2 * size))) out))
                       (wrap64 (su + wrap64 (wrap64 (2 * size) - avail_out s2))))
             as (IH1 & IH2).
           split.
           ++ intros w c' m n [E|[E|Hin]] Hf; [discriminate E| |].
              ** injection E as _ <- _ _. congruence.
              ** exact (IH1 _ _ _ _ Hin Hf).
           ++ intros Hall. apply IH2. intros w c' m n Hin.
              apply (Hall w c' m n). right. right. exact Hin.
        -- destruct (resize_throws _ (store _ _ _)) as [e|] eqn:Hrt2;
             cbn; split.
           ++ intros w c' m n [E|[E|[E|[]]]] Hf; try discriminate E.
              injection E as _ <- _ _. congruence.
           ++ apply resize_throws_alloc in Hrt2.
              intros _ what E. destruct Hrt2 as [[-> | ->] _]; discriminate E.
           ++ intros w c' m n [E|[E|[E|[E|[]]]]] Hf; try discriminate E.
              injection E as _ <- _ _. congruence.
           ++ intros _ what E. discriminate E.
Qed.

(** C6, both directions, for every run of [Decompressor::decompress]. A call
    of [inflate] that returns a status other than [Z_STREAM_END], [Z_OK] and
    [Z_BUF_ERROR] ends the run: with the message [m] the codec left, by
    [std::runtime_error(m)]; with no message (a null [msg]), by undefined
    behaviour and not by the exception. In a run in which no call of
    [inflate] returns such a status, a [std::runtime_error] carries one of
    the messages of the driver itself. *)
Theorem decompress_failure_outcomes {codec : Zlib} {build : Build} {heap : Heap}
    (kind : container) (decomp : Decompressor.t) (fuel : nat)
    (out data : list byte) (size : Z) :
  let r := Decompressor.decompress kind decomp fuel out data size in
  (forall w c m n,
      In (Ev_inflate w c m n) (events r) ->
      Decompressor.is_failure c = true ->
      outcome r = failure_outcome m) /\
  ((forall w c m n,
       In (Ev_inflate w c m n) (events r) ->
       Decompressor.is_failure c = false) ->
   forall what,
     outcome r = Throws (runtime_error what) ->
     what = inflate_init_failed \/ what = size_not_unsigned_x2 \/
     what = size_too_large \/ what = output_too_large).
Proof.
  unfold Decompressor.decompress.
  destruct (inflateInit2_ Decompressor.window_bits) as [st|].
  - destruct (DEBUG && (UINT_MAX <? wrap64 (size * 2)))%bool.
    { cbn. split.
      - intros w c m n [E|[E|[]]]; discriminate E.
      - intros _ what E. right. left. now injection E as <-. }
    destruct ((Decompressor.max_ decomp <? size)
              || (Decompressor.max_ decomp <? wrap64 (size * 2)))%bool.
    + cbn. split.
      * intros w c m n [E|[E|[]]]; discriminate E.
      * intros _ what E. right. right. left. now injection E as <-.
    + cbn [after outcome events app].
      match goal with
      | |- context [Decompressor.decompress_loop ?k ?f ?mx ?sz ?s ?o ?u] =>
        destruct (decompress_loop_failures k f mx sz s o u) as (H1 & H2)
      end.
      split.
      * intros w c m n [E|Hin] Hf; [discriminate E|].
        exact (H1 _ _ _ _ Hin Hf).
      * intros Hall what E. do 3 right. apply H2; [|exact E].
        intros w c m n Hin. apply (Hall w c m n). right. exact Hin.
  - cbn. split.
    + intros w c m n [E|[]]. discriminate E.
    + intros _ what E. left. now injection E as <-.
Qed.

(** C6 at work on the reference codec: a stream with a wrong header ends in
    the exception with the message of the codec, a zlib header that asks for
    a dictionary ends in undefined behaviour, and a stream that is too large
    for the ceiling ends in an exception of the driver. *)
Lemma decompress_failure_outcomes_witness :
  (let r := decompress_string (codec := Stored.codec) (build := release_build) (heap := roomy)
              1 [x79; x9c; x00; x00; x00; x00] default_max_bytes in
   In (Ev_inflate 12 Z_DATA_ERROR (Some "incorrect header check"%string) 0)
      (events r) /\
   Decompressor.is_failure Z_DATA_ERROR = true /\
   outcome r = Throws (runtime_error "incorrect header check")) /\
  (let r := decompress_string (codec := Stored.codec) (build := release_build) (heap := roomy)
              1 [x78; x20; x00; x00; x00; x00] default_max_bytes in
   In (Ev_inflate 12 Z_NEED_DICT None 0) (events r) /\
   Decompressor.is_failure Z_NEED_DICT = true /\
   outcome r = Undefined) /\
  (let r := decompress_string (codec := Stored.codec) (build := release_build) (heap := roomy)
              1 (Stored.gzip_of 6 hello) 25 in
   (forall w c m n, In (Ev_inflate w c m n) (events r) ->
                    Decompressor.is_failure c = false) /\
   outcome r = Throws (runtime_error size_too_large) /\
   (size_too_large = inflate_init_failed \/
    size_too_large = size_not_unsigned_x2 \/
    size_too_large = size_too_large \/
    size_too_large = output_too_large)).
Proof.
  split; [|split]; cbn zeta.
  - assert (Hin : In (Ev_inflate 12 Z_DATA_ERROR
                        (Some "incorrect header check"%string) 0)
                     (events (decompress_string (codec := Stored.codec)
                                (build := release_build) (heap := roomy) 1
                                [x79; x9c; x00; x00; x00; x00]
                                default_max_bytes)))
      by (vm_compute; tauto).
    split; [exact Hin|]. split; [reflexivity|].
    exact (proj1 (decompress_failure_outcomes (codec := Stored.codec)
                    (build := release_build) (heap := roomy)
                    std_string (Decompressor.new default_max_bytes) 1 []
                    [x79; x9c; x00; x00; x00; x00] 6)
             _ _ _ _ Hin eq_refl).
  - assert (Hin : In (Ev_inflate 12 Z_NEED_DICT None 0)
                     (events (decompress_string (codec := Stored.codec)
                                (build := release_build) (heap := roomy) 1
                                [x78; x20; x00; x00; x00; x00]
                                default_max_bytes)))
      by (vm_compute; tauto).
    split; [exact Hin|]. split; [reflexivity|].
    exact (proj1 (decompress_failure_outcomes (codec := Stored.codec)
                    (build := release_build) (heap := roomy)
                    std_string (Decompressor.new default_max_bytes) 1 []
                    [x78; x20; x00; x00; x00; x00] 6)
             _ _ _ _ Hin eq_refl).
  - assert (Hall : forall w c m n,
               In (Ev_inflate w c m n)
                  (events (decompress_string (codec := Stored.codec)
                             (build := release_build) (heap := roomy) 1
                             (Stored.gzip_of 6 hello) 25)) ->
               Decompressor.is_failure c = false).
    { intros w c m n Hin. vm_compute in Hin.
      destruct Hin as [E|[E|[]]]; discriminate E. }
    assert (Hout : outcome (decompress_string (codec := Stored.codec)
                              (build := release_build) (heap := roomy) 1
                              (Stored.gzip_of 6 hello) 25)
                   = Throws (runtime_error size_too_large))
      by reflexivity.
    split; [exact Hall|]. split; [exact Hout|].
    exact (proj2 (decompress_failure_outcomes (codec := Stored.codec)
                    (build := release_build) (heap := roomy)
                    std_string (Decompressor.new 25) 1 []
                    (Stored.gzip_of 6 hello) 13)
             Hall _ Hout).
Defined.

(** ** The fuel *)

Section Fuel.

Context {codec : Zlib} {build : Build} {heap : Heap}.
Variable kind : container.

(** A run that has come back does not depend on the fuel it was given. *)
Lemma compress_loop_fuel (n : nat) :
  forall (m : nat) (size : Z) (s : z_stream deflate_state)
         (out : list byte) (sc : Z),
    outcome (Compressor.compress_loop kind n size s out sc) <> OutOfFuel ->
    (n <= m)%nat ->
    Compressor.compress_loop kind m size s out sc =
    Compressor.compress_loop kind n size s out sc.
Proof.
  induction n as [|n IH]; intros m size s out sc Hn Hle.
  - exfalso. apply Hn. reflexivity.
  - destruct m as [|m]; [lia|].
    cbn [Compressor.compress_loop] in *.
    destruct (if size_of out <? _ then _ else None) as [e|]; [reflexivity|].
    destruct (has_element0 kind _); [|reflexivity].
    destruct (deflate (set_avail_out s (wrap32 (wrap64 (size / 2 + 1024))))
                Z_FINISH) as [[c s2] bytes].
    cbn [after outcome] in Hn.
    destruct (avail_out s2 =? 0); [|reflexivity].
    rewrite (IH m) by (assumption || lia). reflexivity.
Qed.

Lemma decompress_loop_fuel (n : nat) :
  forall (m : nat) (max size : Z) (s : z_stream inflate_state)
         (out : list byte) (su : Z),
    outcome (Decompressor.decompress_loop kind n max size s out su)
    <> OutOfFuel ->
    (n <= m)%nat ->
    Decompressor.decompress_loop kind m max size s out su =
    Decompressor.decompress_loop kind n max size s out su.
Proof.
  induction n as [|n IH]; intros m max size s out su Hn Hle.
  - exfalso. apply Hn. reflexivity.
  - destruct m as [|m]; [lia|].
    cbn [Decompressor.decompress_loop] in *.
    destruct (max <? wrap64 (su + wrap64 (2 * size))); [reflexivity|].
    destruct (resize_throws _ out) as [e|]; [reflexivity|].
    destruct (has_element0 kind _); [|reflexivity].
    destruct (inflate (set_avail_out s (wrap32 (wrap64 (2 * size))))
                Z_FINISH) as [[c s2] bytes].
    cbn [after outcome] in Hn.
    destruct (Decompressor.is_failure c); [reflexivity|].
    destruct (avail_out s2 =? 0); [|reflexivity].
    rewrite (IH m) by (assumption || lia). reflexivity.
Qed.

Lemma compress_fuel (comp : Compressor.t) (n m : nat)
    (out data : list byte) (size : Z) :
  outcome (Compressor.compress kind comp n out data size) <> OutOfFuel ->
  (n <= m)%nat ->
  Compressor.compress kind comp m out data size =
  Compressor.compress kind comp n out data size.
Proof.
  unfold Compressor.compress. intros Hn Hle.
  destruct (DEBUG && (UINT_MAX <? size))%bool; [reflexivity|].
  destruct (Compressor.max_ comp <? size); [reflexivity|].
  destruct (deflateInit2_ (Compressor.level_ comp) Z_DEFLATED
              Compressor.window_bits Compressor.mem_level
              Z_DEFAULT_STRATEGY); [|reflexivity].
  cbn [after outcome] in Hn.
  rewrite (compress_loop_fuel n m) by assumption. reflexivity.
Qed.

Lemma decompress_fuel (decomp : Decompressor.t) (n m : nat)
    (out data : list byte) (size : Z) :
  outcome (Decompressor.decompress kind decomp n out data size) <> OutOfFuel ->
  (n <= m)%nat ->
  Decompressor.decompress kind decomp m out data size =
  Decompressor.decompress kind decomp n out data size.
Proof.
  unfold Decompressor.decompress. intros Hn Hle.
  destruct (inflateInit2_ Decompressor.window_bits); [|reflexivity].
  destruct (DEBUG && (UINT_MAX <? wrap64 (size * 2)))%bool; [reflexivity|].
  destruct ((Decompressor.max_ decomp <? size)
            || (Decompressor.max_ decomp <? wrap64 (size * 2)))%bool;
    [reflexivity|].
  cbn [after outcome] in Hn.
  rewrite (decompress_loop_fuel n m) by assumption. reflexivity.
Qed.

End Fuel.

(** * More about the drivers and the sniffer *)

(** ** The sniffer on prefixes *)

(** X1. Once a buffer has more than two bytes, the bytes that follow do not
    change how [is_compressed] classifies it: a prefix of three bytes or more
    decides for the whole buffer. *)
Theorem is_compressed_prefix_decides (data more : list byte) :
  2 < size_of data ->
  is_compressed_string (data ++ more) = is_compressed_string data /\
  is_compressed_vector (data ++ more) = is_compressed_vector data.
Proof.
  intros H.
  assert (E : is_compressed (data ++ more) (size_of (data ++ more))
              = is_compressed data (size_of data)).
  { assert (H1 : (2 <? size_of (data ++ more)) = true)
      by (apply Z.ltb_lt; rewrite size_of_app;
          pose proof (size_of_nonneg more); lia).
    assert (H2 : (2 <? size_of data) = true) by (apply Z.ltb_lt; exact H).
    unfold is_compressed. rewrite H1, H2.
    destruct data as [|b0 [|b1 [|b2 rest]]]; try (cbn in H; lia).
    reflexivity. }
  split; exact E.
Qed.

Lemma is_compressed_prefix_decides_witness :
  is_compressed_string ([x1f; x8b; x08] ++ hello)
  = is_compressed_string [x1f; x8b; x08] /\
  is_compressed_vector ([x1f; x8b; x08] ++ hello)
  = is_compressed_vector [x1f; x8b; x08].
Proof.
  apply (is_compressed_prefix_decides [x1f; x8b; x08] hello).
  reflexivity.
Defined.

(** ** An output window of size 0 *)

Lemma decompress_loop_zero_window {codec : Zlib} {heap : Heap}
    (window : window_respected codec) (kind : container) (fuel : nat) :
  forall (max size : Z) (s : z_stream inflate_state) (out : list byte)
         (su : Z),
    wrap32 (wrap64 (2 * size)) = 0 ->
    outcome (Decompressor.decompress_loop kind fuel max size s out su)
    <> Returns.
Proof.
  induction fuel as [|fuel IH]; intros max size s out su Hzero;
    [discriminate|].
  cbn [Decompressor.decompress_loop].
  destruct (max <? wrap64 (su + wrap64 (2 * size))); [discriminate|].
  destruct (resize_throws _ out) as [e|]; [discriminate|].
  destruct (has_element0 kind _); [|discriminate].
  unfold inflate. cbn [set_avail_out avail_out state].
  rewrite Hzero.
  set (r := inflate_ _ _ 0 Z_FINISH).
  pose proof (proj2 window (state s)
                (readable (set_avail_out s 0)) 0 Z_FINISH ltac:(lia)) as Hp.
  fold r in Hp. pose proof (size_of_nonneg (produced r)) as Hp0.
  assert (Ha2 : avail_out (advance (set_avail_out s 0) r) = 0).
  { cbn [advance avail_out set_avail_out].
    replace (size_of (produced r)) with 0 by lia. reflexivity. }
  rewrite Ha2. cbn [after outcome Z.eqb].
  destruct (Decompressor.is_failure (ret r)).
  - destruct (msg (advance (set_avail_out s 0) r)); discriminate.
  - apply IH. exact Hzero.
Qed.

(** X2. When twice the input size is a multiple of 2^32 (the empty input, an
    input of 2^31 bytes) the window [decompress] offers to [inflate] has
    size 0, and with a codec that respects its window the call never
    returns: it throws, runs into undefined behaviour, or keeps looping. In
    particular decompressing the empty buffer never yields an empty
    result. *)
Theorem decompress_zero_window_never_returns {codec : Zlib} {build : Build} {heap : Heap}
    (window : window_respected codec) (kind : container)
    (decomp : Decompressor.t) (fuel : nat) (out data : list byte)
    (size : Z) :
  wrap32 (wrap64 (size * 2)) = 0 ->
  outcome (Decompressor.decompress kind decomp fuel out data size)
  <> Returns.
Proof.
  intros Hzero. unfold Decompressor.decompress.
  destruct (inflateInit2_ Decompressor.window_bits) as [st|];
    [|discriminate].
  cbn [after outcome].
  destruct (DEBUG && (UINT_MAX <? wrap64 (size * 2)))%bool; [discriminate|].
  destruct ((Decompressor.max_ decomp <? size)
            || (Decompressor.max_ decomp <? wrap64 (size * 2)))%bool;
    [discriminate|].
  apply (decompress_loop_zero_window window).
  replace (2 * size) with (size * 2) by lia. exact Hzero.
Qed.

Lemma decompress_zero_window_never_returns_witness :
  outcome (decompress_string (codec := Stored.codec) (build := release_build) (heap := roomy)
             9 [] default_max_bytes) <> Returns /\
  outcome (Decompressor.decompress (codec := Stored.codec)
             (build := release_build) (heap := roomy) std_string
             (Decompressor.new (2 ^ 33)) 9 []
             (repeat x00 (Z.to_nat (2 ^ 31))) (2 ^ 31)) <> Returns.
Proof.
  split.
  - apply (decompress_zero_window_never_returns (codec := Stored.codec)
             (build := release_build) (heap := roomy) stored_window_respected).
    reflexivity.
  - apply (decompress_zero_window_never_returns (codec := Stored.codec)
             (build := release_build) (heap := roomy) stored_window_respected).
    reflexivity.
Defined.

(** ** The ceiling bounds the number of calls of [inflate] *)

Lemma inflate_calls_app (evs evs' : list event) :
  inflate_calls (evs ++ evs') = (inflate_calls evs + inflate_calls evs')%nat.
Proof.
  unfold inflate_calls. rewrite filter_app. apply length_app.
Qed.


Ltac count_calls :=
  cbn [events after app]; unfold inflate_calls, deflate_calls;
  cbn [filter is_inflate_call is_deflate_call length Nat.add].

Lemma decompress_loop_calls {codec : Zlib} {heap : Heap}
    (kind : container) (max size : Z) :
  0 < size -> 2 * size <= max -> max <= PTRDIFF_MAX ->
  forall (fuel : nat) (s : z_stream inflate_state) (out : list byte)
         (su : Z),
    0 <= su <= max ->
    Z.of_nat (inflate_calls
                (events (Decompressor.decompress_loop kind fuel max size s
                           out su)))
    * (2 * size) <= max - su.
Proof.
  intros Hsize H2 Hmax.
  induction fuel as [|fuel IH]; intros s out su Hsu;
    [cbn [Decompressor.decompress_loop]; count_calls; lia|].
  cbn [Decompressor.decompress_loop].
  destruct (Z.ltb_spec max (wrap64 (su + wrap64 (2 * size)))) as [Hover|Hfits];
    [count_calls; lia|].
  assert (HW : wrap64 (2 * size) = 2 * size)
    by (apply wrap64_small; unfold SIZE_MAX, PTRDIFF_MAX in *; lia).
  rewrite !HW in *.
  rewrite (wrap64_small (su + 2 * size)) in *
    by (unfold SIZE_MAX, PTRDIFF_MAX in *; lia).
  destruct (resize_throws _ out) as [e|]; [count_calls; lia|].
  destruct (has_element0 kind (resize (su + 2 * size) out)); [|count_calls; lia].
  destruct (inflate (set_avail_out s (wrap32 (2 * size))) Z_FINISH)
    as [[c s2] bytes].
  cbn [after events]. rewrite inflate_calls_app.
  change (inflate_calls [Ev_resize (su + 2 * size);
                         Ev_inflate (avail_out (set_avail_out s
                                                  (wrap32 (2 * size))))
                           c (msg s2) (size_of bytes)]) with 1%nat.
  destruct (Decompressor.is_failure c).
  - destruct (msg s2); count_calls; lia.
  - destruct (Z.eqb_spec (avail_out s2) 0) as [E|E];
      [|destruct (resize_throws _ _); count_calls; lia].
    rewrite E, Z.sub_0_r.
    rewrite (wrap64_small (2 * size))
      by (unfold SIZE_MAX, PTRDIFF_MAX in *; lia).
    rewrite (wrap64_small (su + 2 * size))
      by (unfold SIZE_MAX, PTRDIFF_MAX in *; lia).
    specialize (IH s2 (store su bytes (resize (su + 2 * size) out))
                  (su + 2 * size) ltac:(lia)).
    lia.
Qed.

(** X3. The ceiling bounds the work of [Decompressor::decompress] whatever
    the codec does: on an input of [size > 0] bytes the loop calls
    [inflate] at most [max_ / (2 * size)] times, and after
    [max_ / (2 * size) + 1] rounds of the loop the call has come back. *)
Theorem decompress_calls_bounded {codec : Zlib} {build : Build} {heap : Heap}
    (kind : container) (decomp : Decompressor.t) (out data : list byte)
    (size : Z) :
  0 < size ->
  0 <= Decompressor.max_ decomp <= PTRDIFF_MAX ->
  (forall fuel,
      Z.of_nat (inflate_calls
                  (events (Decompressor.decompress kind decomp fuel out data
                             size)))
      <= Decompressor.max_ decomp / (2 * size)) /\
  outcome (Decompressor.decompress kind decomp
             (S (Z.to_nat (Decompressor.max_ decomp / (2 * size))))
             out data size)
  <> OutOfFuel.
Proof.
  intros Hsize Hmax.
  assert (Hq : 0 <= Decompressor.max_ decomp / (2 * size))
    by (apply Z.div_pos; lia).
  unfold Decompressor.decompress.
  destruct (inflateInit2_ Decompressor.window_bits) as [st|];
    [|split; [intros; count_calls; lia | discriminate]].
  destruct (DEBUG && (UINT_MAX <? wrap64 (size * 2)))%bool;
    [split; [intros; count_calls; lia | discriminate]|].
  destruct (Z.ltb_spec (Decompressor.max_ decomp) size) as [H1|H1];
    [cbn [orb]; split; [intros; count_calls; lia | discriminate]|].
  cbn [orb].
  replace (size * 2) with (2 * size) by lia.
  rewrite (wrap64_small (2 * size))
    by (unfold SIZE_MAX, PTRDIFF_MAX in *; lia).
  destruct (Z.ltb_spec (Decompressor.max_ decomp) (2 * size)) as [H2|H2];
    [split; [intros; count_calls; lia | discriminate]|].
  split.
  - intros fuel. cbn [after events app].
    change (inflate_calls (Ev_inflateInit2 true :: ?l))
      with (inflate_calls l).
    apply Z.div_le_lower_bound; [lia|].
    pose proof (decompress_loop_calls kind (Decompressor.max_ decomp) size
                  Hsize H2 ltac:(lia) fuel
                  (set_avail_in
                     {| next_in := data; avail_in := 0; avail_out := 0;
                        msg := None; state := st |} (wrap32 size))
                  out 0 ltac:(lia)) as Hc.
    lia.
  - cbn [after outcome].
    apply decompress_loop_terminates; try lia.
    rewrite Nat2Z.inj_succ, Z2Nat.id by lia.
    pose proof (Z.mul_succ_div_gt (Decompressor.max_ decomp) (2 * size)
                  ltac:(lia)).
    lia.
Qed.

Lemma decompress_calls_bounded_witness :
  (forall fuel,
      Z.of_nat (inflate_calls
                  (events (Decompressor.decompress (codec := Stored.codec)
                             (build := release_build) (heap := roomy) std_vector
                             (Decompressor.new 100) fuel []
                             (Stored.gzip_of 6 hello)
                             (size_of (Stored.gzip_of 6 hello)))))
      <= 100 / (2 * size_of (Stored.gzip_of 6 hello))) /\
  outcome (Decompressor.decompress (codec := Stored.codec)
             (build := release_build) (heap := roomy) std_vector (Decompressor.new 100)
             (S (Z.to_nat (100 / (2 * size_of (Stored.gzip_of 6 hello)))))
             [] (Stored.gzip_of 6 hello) (size_of (Stored.gzip_of 6 hello)))
  <> OutOfFuel.
Proof.
  apply (decompress_calls_bounded (codec := Stored.codec)
           (build := release_build) (heap := roomy) std_vector (Decompressor.new 100) []
           (Stored.gzip_of 6 hello) (size_of (Stored.gzip_of 6 hello))).
  - vm_compute. reflexivity.
  - vm_compute. split; discriminate.
Defined.

(** ** A well-formed stream and the ceiling *)

(** X4. [Decompressor::decompress] on the stream of [data], with a ceiling
    of at most [UINT_MAX] and a free store that has the room for a
    container of the size of the ceiling: whatever the output container
    held before, the call returns with exactly [data] in it when the
    ceiling has room for [n / (2 * s) + 1] windows of [2 * s] bytes ([n] the
    size of the data, [s] the size of the stream), and throws
    [std::runtime_error] when it has not. *)
Theorem decompress_of_stream {codec : Zlib} {build : Build} {heap : Heap}
    (gzip_of : Z -> list byte -> list byte)
    (inflating : inflate_state -> list byte -> list byte -> Prop)
    (laws : inflate_finishes codec gzip_of inflating)
    (kind : container) (decomp : Decompressor.t) (out data : list byte)
    (level : Z) (dst : deflate_state) (st : inflate_state) :
  deflateInit2_ level Z_DEFLATED Compressor.window_bits Compressor.mem_level
    Z_DEFAULT_STRATEGY = Some dst ->
  inflateInit2_ Decompressor.window_bits = Some st ->
  let stream := gzip_of level data in
  0 < size_of stream ->
  0 <= Decompressor.max_ decomp <= UINT_MAX ->
  grants heap (Decompressor.max_ decomp) ->
  exists fuel,
    let r := Decompressor.decompress kind decomp fuel out stream
               (size_of stream) in
    if (size_of data / (2 * size_of stream) + 1) * (2 * size_of stream)
       <=? Decompressor.max_ decomp
    then returned r = Some data
    else throws_runtime_error r.
Proof.
  intros Hdinit Hinit stream Hpos Hmax Hheap.
  destruct (Z.leb_spec
              ((size_of data / (2 * size_of stream) + 1)
               * (2 * size_of stream))
              (Decompressor.max_ decomp)) as [Hroom|Hover].
  - exists (S (Z.to_nat (size_of data / (2 * size_of stream)))).
    assert (Hq : 0 <= size_of data / (2 * size_of stream))
      by (apply Z.div_pos; [apply size_of_nonneg | lia]).
    assert (Hfuel : size_of data / (2 * size_of stream)
                    < Z.of_nat
                        (S (Z.to_nat (size_of data / (2 * size_of stream)))))
      by (rewrite Nat2Z.inj_succ, Z2Nat.id by exact Hq; lia).
    destruct (decompress_finishes gzip_of inflating laws kind decomp
                (S (Z.to_nat (size_of data / (2 * size_of stream))))
                out data level dst st Hdinit Hinit Hpos (proj2 Hmax) Hroom
                (grants_le _ _ Hheap Hroom) Hfuel) as (Ho & Hout).
    subst stream. cbn zeta. unfold returned. rewrite Ho, Hout. reflexivity.
  - exact (decompress_overflows gzip_of inflating laws kind decomp out data
             level dst st Hdinit Hinit Hpos Hmax Hover Hheap).
Qed.

Lemma decompress_of_stream_witness :
  (exists fuel,
      returned (Decompressor.decompress (codec := Stored.codec)
                  (build := release_build) (heap := roomy) std_vector (Decompressor.new 26)
                  fuel [x61; x62; x63] (Stored.gzip_of 6 hello)
                  (size_of (Stored.gzip_of 6 hello))) = Some hello) /\
  (exists fuel,
      throws_runtime_error
        (Decompressor.decompress (codec := Stored.codec)
           (build := release_build) (heap := roomy) std_vector (Decompressor.new 25)
           fuel [x61; x62; x63] (Stored.gzip_of 6 hello)
           (size_of (Stored.gzip_of 6 hello)))).
Proof.
  split.
  - exact (decompress_of_stream (codec := Stored.codec)
             (build := release_build) (heap := roomy) Stored.gzip_of Stored.inflating
             stored_inflate_finishes std_vector (Decompressor.new 26)
             [x61; x62; x63] hello 6 Stored.Fresh Stored.Start
             eq_refl eq_refl ltac:(vm_compute; reflexivity)
             ltac:(vm_compute; split; discriminate)
             ltac:(apply roomy_grants; vm_compute; discriminate)).
  - exact (decompress_of_stream (codec := Stored.codec)
             (build := release_build) (heap := roomy) Stored.gzip_of Stored.inflating
             stored_inflate_finishes std_vector (Decompressor.new 25)
             [x61; x62; x63] hello 6 Stored.Fresh Stored.Start
             eq_refl eq_refl ltac:(vm_compute; reflexivity)
             ltac:(vm_compute; split; discriminate)
             ltac:(apply roomy_grants; vm_compute; discriminate)).
Defined.

(** ** What [compress] reads and what it leaves *)



(** ** The streams and their release *)

Lemma decompress_loop_release {codec : Zlib} {heap : Heap}
    (kind : container) (fuel : nat) :
  forall (max size : Z) (s : z_stream inflate_state) (out : list byte)
         (su : Z),
    let r := Decompressor.decompress_loop kind fuel max size s out su in
    (comes_back r -> closes_with Ev_inflateEnd (events r)) /\
    (~ comes_back r -> ~ In Ev_inflateEnd (events r)).
Proof.
  unfold comes_back, closes_with.
  induction fuel as [|fuel IH]; intros max size s out su;
    cbn [Decompressor.decompress_loop].
  - split; [intros [H|[e H]]; discriminate | intros _ []].
  - destruct (max <? _).
    { split.
      - intros _. exists []. split; [reflexivity | intros []].
      - intros H. exfalso. apply H. right. eexists. reflexivity. }
    destruct (resize_throws _ out) as [e|].
    { split.
      - intros _. exists []. split; [reflexivity | intros []].
      - intros H. exfalso. apply H. right. eexists. reflexivity. }
    destruct (has_element0 kind _).
    2:{ split; [intros [H|[e H]]; discriminate|].
        intros _ [H|[]]. discriminate. }
    destruct (inflate _ Z_FINISH) as [[c s2] bytes].
    cbn [after outcome events app].
    destruct (Decompressor.is_failure c).
    { destruct (msg s2) as [what|].
      - split.
        + intros _. eexists [_; _]. split; [reflexivity|].
          intros [H|[H|[]]]; discriminate.
        + intros H. exfalso. apply H. right. eexists. reflexivity.
      - split; [intros [H|[e H]]; discriminate|].
        intros _ [H|[H|[]]]; discriminate. }
    destruct (avail_out s2 =? 0).
    + destruct (IH max size s2
                  (store su bytes
                     (resize (wrap64 (su + wrap64 (2 * size))) out))
                  (wrap64 (su + wrap64 (wrap64 (2 * size) - avail_out s2))))
        as [IH1 IH2].
      split.
      * intros H. destruct (IH1 H) as (pre & E & Hn).
        eexists (_ :: _ :: pre). rewrite E. split; [reflexivity|].
        intros [H'|[H'|H']]; [discriminate | discriminate | auto].
      * intros H [H'|[H'|H']]; [discriminate | discriminate |].
        exact (IH2 H H').
    + destruct (resize_throws _ _) as [e|]; split.
      * intros _. eexists [_; _]. split; [reflexivity|].
        intros [H|[H|[]]]; discriminate.
      * intros H. exfalso. apply H. right. eexists. reflexivity.
      * intros _. eexists [_; _; _]. split; [reflexivity|].
        intros [H|[H|[H|[]]]]; discriminate.
      * intros H. exfalso. apply H. left. reflexivity.
Qed.

(** X6. [Decompressor::decompress] ends the stream it has initialised on
    every way out, and once: when [inflateInit2] has succeeded and the call
    comes back, by returning or by any exception, one of [resize]
    included, [inflateEnd] is the last thing it did and it did it once;
    when [inflateInit2] has failed there is no call of [inflateEnd]. This
    holds for every codec, input, ceiling, build and free store. *)
Theorem decompress_releases_stream {codec : Zlib} {build : Build} {heap : Heap}
    (kind : container) (decomp : Decompressor.t) (fuel : nat)
    (out data : list byte) (size : Z) :
  let r := Decompressor.decompress kind decomp fuel out data size in
  comes_back r ->
  (inflateInit2_ Decompressor.window_bits <> None /\
   exists evs,
     events r = Ev_inflateInit2 true :: evs /\
     closes_with Ev_inflateEnd evs) \/
  (inflateInit2_ Decompressor.window_bits = None /\
   events r = [Ev_inflateInit2 false]).
Proof.
  intros r Hback. subst r. revert Hback. unfold Decompressor.decompress.
  destruct (inflateInit2_ Decompressor.window_bits) as [st|];
    [|intros _; right; split; reflexivity].
  intros Hback. left. split; [discriminate|].
  unfold comes_back in Hback. cbn [after outcome] in Hback.
  cbn [after events app].
  eexists. split; [reflexivity|].
  destruct (DEBUG && (UINT_MAX <? wrap64 (size * 2)))%bool.
  { exists []. split; [reflexivity | intros []]. }
  destruct ((Decompressor.max_ decomp <? size)
            || (Decompressor.max_ decomp <? wrap64 (size * 2)))%bool.
  { exists []. split; [reflexivity | intros []]. }
  apply decompress_loop_release. exact Hback.
Qed.

Lemma decompress_releases_stream_witness :
  closes_with Ev_inflateEnd
    (tl (events (decompress_string (codec := Stored.codec)
                   (build := release_build) (heap := roomy) 1
                   [x1f; x8b; x02; x00] 100))).
Proof.
  destruct (decompress_releases_stream (codec := Stored.codec)
              (build := release_build) (heap := roomy) std_string (Decompressor.new 100)
              1 [] [x1f; x8b; x02; x00] 4) as [(_ & evs & E & H)|(E & _)].
  - right. vm_compute. eexists. reflexivity.
  - unfold decompress_string.
    change (size_of [x1f; x8b; x02; x00]) with 4. rewrite E. exact H.
  - discriminate E.
Defined.

Lemma compress_loop_release {codec : Zlib} {heap : Heap}
    (kind : container) (fuel : nat) :
  forall (size : Z) (s : z_stream deflate_state) (out : list byte) (sc : Z),
    let r := Compressor.compress_loop kind fuel size s out sc in
    (forall e, outcome r = Throws e -> e = length_error \/ e = bad_alloc) /\
    (forall l ok, ~ In (Ev_deflateInit2 l ok) (events r)) /\
    (outcome r = Returns ->
     exists pre n,
       events r = pre ++ [Ev_deflateEnd; Ev_resize n] /\
       ~ In Ev_deflateEnd pre).
Proof.
  induction fuel as [|fuel IH]; intros size s out sc;
    cbn [Compressor.compress_loop].
  - repeat split; try discriminate; intros; intros [].
  - set (to := wrap64 (sc + wrap64 (size / 2 + 1024))).
    destruct (if size_of out <? to then resize_throws to out else None)
      as [e|] eqn:Hrt.
    { cbn [outcome events]. split; [|split; [intros l ok []|discriminate]].
      intros e' E. injection E as <-.
      destruct (size_of out <? to); [|discriminate Hrt].
      apply resize_throws_alloc in Hrt. tauto. }
    clear Hrt.
    set (resized := if size_of out <? to then [Ev_resize to] else []).
    assert (Hres : forall e, In e resized -> e = Ev_resize to).
    { intros e. unfold resized. destruct (size_of out <? to).
      - intros [H|[]]. now symmetry.
      - intros []. }
    destruct (has_element0 kind _).
    2:{ cbn [outcome events]. split; [discriminate|].
        split; [|discriminate].
        intros l ok H. apply Hres in H. discriminate. }
    destruct (deflate _ Z_FINISH) as [[c s2] bytes].
    cbn [after outcome events].
    destruct (avail_out s2 =? 0).
    + destruct (IH size s2
                  (store sc bytes
                     (if size_of out <? to then resize to out else out))
                  (wrap64 (sc + wrap64 (wrap64 (size / 2 + 1024)
                                        - avail_out s2))))
        as (IH1 & IH2 & IH3).
      split; [exact IH1|]. split.
      * intros l ok H. apply in_app_or in H. destruct H as [H|H].
        -- apply in_app_or in H. destruct H as [H|[H|[]]];
             [apply Hres in H|]; discriminate.
        -- exact (IH2 l ok H).
      * intros H. destruct (IH3 H) as (pre & n & E & Hn).
        exists ((resized ++ [Ev_deflate (avail_out
                                           (set_avail_out s
                                              (wrap32 (wrap64 (size / 2
                                                               + 1024)))))
                               (size_of bytes)]) ++ pre), n.
        rewrite E, app_assoc. split; [reflexivity|].
        intros Hin. apply in_app_or in Hin. destruct Hin as [Hin|Hin];
          [|exact (Hn Hin)].
        apply in_app_or in Hin. destruct Hin as [Hin|[Hin|[]]];
          [apply Hres in Hin|]; discriminate.
    + destruct (resize_throws _ _) as [e|] eqn:Hrt; cbn [outcome events].
      * split; [|split; [|discriminate]].
        -- intros e' E. injection E as <-.
           apply resize_throws_alloc in Hrt. tauto.
        -- intros l ok H. apply in_app_or in H. destruct H as [H|H].
           ++ apply in_app_or in H. destruct H as [H|[H|[]]];
                [apply Hres in H|]; discriminate.
           ++ destruct H as [H|[]]; discriminate.
      * split; [discriminate|]. split.
        -- intros l ok H. apply in_app_or in H. destruct H as [H|H].
           ++ apply in_app_or in H. destruct H as [H|[H|[]]];
                [apply Hres in H|]; discriminate.
           ++ destruct H as [H|[H|[]]]; discriminate.
        -- intros _. eexists. eexists. split; [reflexivity|].
           intros Hin. apply in_app_or in Hin.
           destruct Hin as [Hin|[Hin|[]]];
             [apply Hres in Hin|]; discriminate.
Qed.

(** With a codec that respects its window and containers of at most
    [PTRDIFF_MAX] bytes the last resize of [compress] does not grow the
    container: an exception that leaves the loop is one of the resize at
    its head, and comes before [deflateEnd]. *)
Lemma compress_loop_leaves_open {codec : Zlib} {heap : Heap}
    (window : window_respected codec) (kind : container) (fuel : nat) :
  forall (size : Z) (s : z_stream deflate_state) (out : list byte) (sc : Z),
    0 <= size <= PTRDIFF_MAX ->
    max_size <= PTRDIFF_MAX ->
    size_of out <= PTRDIFF_MAX ->
    0 <= sc <= size_of out ->
    forall e,
      outcome (Compressor.compress_loop kind fuel size s out sc) = Throws e ->
      ~ In Ev_deflateEnd
          (events (Compressor.compress_loop kind fuel size s out sc)).
Proof.
  induction fuel as [|fuel IH];
    intros size s out sc Hsize Hms Hout Hsc e; [discriminate|].
  assert (Hhalf : 0 <= size / 2 /\ 2 * (size / 2) <= size).
  { split; [apply Z.div_pos; lia | apply Z.mul_div_le; lia]. }
  cbn [Compressor.compress_loop].
  set (inc := size / 2 + 1024).
  rewrite !(wrap64_small inc)
    by (unfold inc, SIZE_MAX, PTRDIFF_MAX in *; lia).
  rewrite !(wrap64_small (sc + inc))
    by (unfold inc, SIZE_MAX, PTRDIFF_MAX in *; lia).
  pose proof (wrap32_range inc) as Hw32.
  assert (Hle : wrap32 inc <= inc)
    by (unfold wrap32; apply Z.mod_le; unfold inc; lia).
  destruct (Z.ltb_spec (size_of out) (sc + inc)) as [Hgrows|Hfits].
  - destruct (resize_throws (sc + inc) out) as [e'|] eqn:Hrt;
      [intros _ []|].
    assert (Hto : sc + inc <= PTRDIFF_MAX).
    { unfold resize_throws in Hrt.
      destruct (Z.leb_spec (sc + inc) (size_of out)); [lia|].
      destruct (Z.ltb_spec max_size (sc + inc)); [discriminate Hrt | lia]. }
    destruct (has_element0 kind _); [|discriminate].
    unfold deflate. cbn [set_avail_out avail_out state].
    pose proof (proj1 window (state s)
                  (readable (set_avail_out s (wrap32 inc))) (wrap32 inc)
                  Z_FINISH ltac:(lia)) as Hp.
    set (r := deflate_ _ _ (wrap32 inc) Z_FINISH) in *.
    pose proof (size_of_nonneg (produced r)) as Hp0.
    assert (Ha2 : avail_out (advance (set_avail_out s (wrap32 inc)) r)
                  = wrap32 inc - size_of (produced r)).
    { cbn [advance avail_out set_avail_out]. apply wrap32_small. lia. }
    rewrite Ha2.
    set (d := inc - (wrap32 inc - size_of (produced r))).
    assert (Hd : 0 <= d <= inc) by (unfold d; lia).
    rewrite (wrap64_small d)
      by (unfold inc, SIZE_MAX, PTRDIFF_MAX in *; lia).
    rewrite !(wrap64_small (sc + d))
      by (unfold inc, SIZE_MAX, PTRDIFF_MAX in *; lia).
    assert (Hlen2 : size_of (store sc (produced r) (resize (sc + inc) out))
                    = sc + inc).
    { rewrite size_of_store; rewrite ?size_of_resize; lia. }
    cbn [after outcome events app].
    destruct (wrap32 inc - size_of (produced r) =? 0).
    + intros E [H|[H|Hin]]; [discriminate H | discriminate H|].
      refine (IH size _ _ (sc + d) Hsize Hms _ _ e E Hin); lia.
    + rewrite resize_within by lia. discriminate.
  - cbn [app].
    destruct (has_element0 kind _); [|discriminate].
    unfold deflate. cbn [set_avail_out avail_out state].
    pose proof (proj1 window (state s)
                  (readable (set_avail_out s (wrap32 inc))) (wrap32 inc)
                  Z_FINISH ltac:(lia)) as Hp.
    set (r := deflate_ _ _ (wrap32 inc) Z_FINISH) in *.
    pose proof (size_of_nonneg (produced r)) as Hp0.
    assert (Ha2 : avail_out (advance (set_avail_out s (wrap32 inc)) r)
                  = wrap32 inc - size_of (produced r)).
    { cbn [advance avail_out set_avail_out]. apply wrap32_small. lia. }
    rewrite Ha2.
    set (d := inc - (wrap32 inc - size_of (produced r))).
    assert (Hd : 0 <= d <= inc) by (unfold d; lia).
    rewrite (wrap64_small d)
      by (unfold inc, SIZE_MAX, PTRDIFF_MAX in *; lia).
    rewrite !(wrap64_small (sc + d))
      by (unfold inc, SIZE_MAX, PTRDIFF_MAX in *; lia).
    assert (Hlen2 : size_of (store sc (produced r) out) = size_of out).
    { apply size_of_store; lia. }
    cbn [after outcome events app].
    destruct (wrap32 inc - size_of (produced r) =? 0).
    + intros E [H|Hin]; [discriminate H|].
      refine (IH size _ _ (sc + d) Hsize Hms _ _ e E Hin); lia.
    + rewrite resize_within by lia. discriminate.
Qed.

(** X7. [Compressor::compress] ends its stream only when the loop is left
    in the ordinary way; there is no handler around the loop. With a codec
    that respects its window and containers of at most [PTRDIFF_MAX] bytes:
    a call that returns has initialised the stream once and ended it once,
    just before its last resize; a call that throws [std::runtime_error]
    does so before any stream stands initialised; and a call that an
    exception of [resize] leaves ([std::length_error], [std::bad_alloc])
    has initialised the stream and has not ended it: the stream stays
    open. *)
Theorem compress_stream_lifecycle {codec : Zlib} {build : Build}
    {heap : Heap} (window : window_respected codec)
    (kind : container) (comp : Compressor.t) (fuel : nat)
    (out data : list byte) (size : Z) :
  0 <= size <= PTRDIFF_MAX ->
  max_size <= PTRDIFF_MAX ->
  size_of out <= PTRDIFF_MAX ->
  let r := Compressor.compress kind comp fuel out data size in
  (outcome r = Returns ->
   exists pre n,
     events r =
     Ev_deflateInit2 (Compressor.level_ comp) true
     :: pre ++ [Ev_deflateEnd; Ev_resize n] /\
     ~ In Ev_deflateEnd pre /\
     (forall l ok, ~ In (Ev_deflateInit2 l ok) pre)) /\
  (forall what, outcome r = Throws (runtime_error what) ->
     (forall l, ~ In (Ev_deflateInit2 l true) (events r)) /\
     ~ In Ev_deflateEnd (events r)) /\
  (forall e, outcome r = Throws e ->
     e = length_error \/ e = bad_alloc ->
     (exists pre,
         events r = Ev_deflateInit2 (Compressor.level_ comp) true :: pre) /\
     ~ In Ev_deflateEnd (events r)).
Proof.
  intros Hsize Hms Hout r. subst r. unfold Compressor.compress.
  destruct (DEBUG && (UINT_MAX <? size))%bool.
  { split; [discriminate|]. split.
    - intros what _. split; [intros l []|intros []].
    - intros e E [-> | ->]; discriminate E. }
  destruct (Compressor.max_ comp <? size).
  { split; [discriminate|]. split.
    - intros what _. split; [intros l []|intros []].
    - intros e E [-> | ->]; discriminate E. }
  destruct (deflateInit2_ _ _ _ _ _) as [st|].
  2:{ split; [discriminate|]. split.
      - intros what _.
        split; [intros l [H|[]] | intros [H|[]]]; discriminate.
      - intros e E [-> | ->]; discriminate E. }
  set (s := {| next_in := data; avail_in := wrap32 size; avail_out := 0;
               msg := None; state := st |}).
  destruct (compress_loop_release kind fuel size s out 0)
    as (H1 & H2 & H3).
  pose proof (compress_loop_leaves_open window kind fuel size s out 0
                Hsize Hms Hout
                ltac:(pose proof (size_of_nonneg out); lia)) as H4.
  cbn [after outcome events app]. split; [|split].
  - intros H. destruct (H3 H) as (pre & n & E & Hn).
    exists pre, n. rewrite E. split; [reflexivity|]. split; [exact Hn|].
    intros l ok Hin. apply (H2 l ok). rewrite E.
    apply in_or_app. left. exact Hin.
  - intros what E. exfalso.
    destruct (H1 _ E) as [H|H]; discriminate H.
  - intros e E _. split; [eexists; reflexivity|].
    intros [H|H]; [discriminate H|]. exact (H4 e E H).
Qed.

Lemma compress_stream_lifecycle_witness :
  let r := compress_vector (codec := Stored.codec) (build := release_build)
             (heap := heap_of 1000) 1 hello 6 in
  (exists pre, events r = Ev_deflateInit2 6 true :: pre) /\
  ~ In Ev_deflateEnd (events r).
Proof.
  apply (proj2 (proj2
           (compress_stream_lifecycle (codec := Stored.codec)
              (build := release_build) (heap := heap_of 1000)
              stored_window_respected std_vector
              (Compressor.new 6 default_max_bytes) 1 [] hello
              (size_of hello)
              ltac:(vm_compute; split; discriminate)
              ltac:(vm_compute; discriminate)
              ltac:(vm_compute; discriminate))) bad_alloc).
  - reflexivity.
  - right. reflexivity.
Defined.

(** ** The casts to [unsigned int] *)

Lemma compress_loop_windows {codec : Zlib} {heap : Heap}
    (kind : container) (fuel : nat) :
  forall (size : Z) (s : z_stream deflate_state) (out : list byte) (sc : Z)
         (w n : Z),
    In (Ev_deflate w n)
       (events (Compressor.compress_loop kind fuel size s out sc)) ->
    w = wrap32 (wrap64 (size / 2 + 1024)).
Proof.
  induction fuel as [|fuel IH]; intros size s out sc w n;
    cbn [Compressor.compress_loop]; [intros []|].
  set (to := wrap64 (sc + wrap64 (size / 2 + 1024))).
  destruct (if size_of out <? to then resize_throws to out else None)
    as [e|]; [intros []|].
  assert (Hres : forall e,
             In e (if size_of out <? to then [Ev_resize to] else []) ->
             e = Ev_resize to).
  { intros e. destruct (size_of out <? to).
    - intros [H|[]]. now symmetry.
    - intros []. }
  destruct (has_element0 kind _).
  2:{ cbn [events]. intros H. apply Hres in H. discriminate. }
  destruct (deflate _ Z_FINISH) as [[c s2] bytes].
  cbn [after events set_avail_out avail_out].
  intros H. apply in_app_or in H. destruct H as [H|H].
  - apply in_app_or in H. destruct H as [H|[H|[]]].
    + apply Hres in H. discriminate.
    + injection H as <- _. reflexivity.
  - destruct (avail_out s2 =? 0).
    + exact (IH _ _ _ _ _ _ H).
    + destruct (resize_throws _ _) as [e|];
        [destruct H as [H|[]] | destruct H as [H|[H|[]]]]; discriminate.
Qed.

Lemma decompress_loop_windows {codec : Zlib} {heap : Heap}
    (kind : container) (fuel : nat) :
  forall (max size : Z) (s : z_stream inflate_state) (out : list byte)
         (su : Z) (w : Z) (c : zret) (m : option string) (n : Z),
    In (Ev_inflate w c m n)
       (events (Decompressor.decompress_loop kind fuel max size s out su)) ->
    w = wrap32 (wrap64 (2 * size)).
Proof.
  induction fuel as [|fuel IH]; intros max size s out su w c m n;
    cbn [Decompressor.decompress_loop]; [intros []|].
  destruct (max <? _); [intros [H|[]]; discriminate|].
  destruct (resize_throws _ out) as [e|]; [intros [H|[]]; discriminate|].
  destruct (has_element0 kind _); [|intros [H|[]]; discriminate].
  destruct (inflate _ Z_FINISH) as [[c2 s2] bytes].
  cbn [after events app set_avail_out avail_out].
  intros [H|[H|H]]; [discriminate | injection H as <- _ _ _; reflexivity |].
  destruct (Decompressor.is_failure c2).
  - destruct (msg s2); [destruct H as [H|[]]; discriminate | destruct H].
  - destruct (avail_out s2 =? 0).
    + exact (IH _ _ _ _ _ _ _ _ _ H).
    + destruct (resize_throws _ _) as [e|];
        [destruct H as [H|[]] | destruct H as [H|[H|[]]]]; discriminate.
Qed.

(** X8. In a build with [DEBUG] no cast to [unsigned int] loses anything:
    every window [compress] offers to [deflate] has the full
    [size / 2 + 1024] bytes and the input it announces has the full [size]
    bytes, and every window [decompress] offers to [inflate] has the full
    [2 * size] bytes; the checks under [#ifdef DEBUG] have refused the
    sizes for which this would fail. *)
Theorem debug_build_casts_are_exact {codec : Zlib} {build : Build} {heap : Heap}
    (kind : container) (comp : Compressor.t) (decomp : Decompressor.t)
    (fuel : nat) (out data : list byte) (size : Z) :
  DEBUG = true ->
  0 <= size <= PTRDIFF_MAX ->
  (forall w n,
      In (Ev_deflate w n)
         (events (Compressor.compress kind comp fuel out data size)) ->
      w = size / 2 + 1024 /\ wrap32 size = size) /\
  (forall w c m n,
      In (Ev_inflate w c m n)
         (events (Decompressor.decompress kind decomp fuel out data size)) ->
      w = 2 * size /\ wrap32 size = size).
Proof.
  intros Hdebug Hsize.
  assert (Hhalf : 0 <= size / 2 /\ 2 * (size / 2) <= size).
  { split; [apply Z.div_pos; lia | apply Z.mul_div_le; lia]. }
  split.
  - intros w n. unfold Compressor.compress. rewrite Hdebug. cbn [andb].
    destruct (Z.ltb_spec UINT_MAX size) as [Hbig|Hfits]; [intros []|].
    destruct (Compressor.max_ comp <? size); [intros []|].
    destruct (deflateInit2_ _ _ _ _ _) as [st|];
      [|intros [H|[]]; discriminate].
    cbn [after events app]. intros [H|H]; [discriminate|].
    apply compress_loop_windows in H. subst w.
    rewrite (wrap64_small (size / 2 + 1024))
      by (unfold SIZE_MAX, UINT_MAX in *; lia).
    split; apply wrap32_small; unfold UINT_MAX in *; lia.
  - intros w c m n. unfold Decompressor.decompress.
    destruct (inflateInit2_ Decompressor.window_bits) as [st|];
      [|intros [H|[]]; discriminate].
    rewrite Hdebug. cbn [andb].
    replace (size * 2) with (2 * size) by lia.
    rewrite (wrap64_small (2 * size))
      by (unfold SIZE_MAX, PTRDIFF_MAX in *; lia).
    cbn [after events app].
    destruct (Z.ltb_spec UINT_MAX (2 * size)) as [Hbig|Hfits];
      [intros [H|[H|[]]]; discriminate|].
    destruct ((Decompressor.max_ decomp <? size)
              || (Decompressor.max_ decomp <? 2 * size))%bool;
      [intros [H|[H|[]]]; discriminate|].
    intros [H|H]; [discriminate|].
    apply decompress_loop_windows in H. subst w.
    rewrite (wrap64_small (2 * size))
      by (unfold SIZE_MAX, PTRDIFF_MAX in *; lia).
    split; apply wrap32_small; unfold UINT_MAX in *; lia.
Qed.

Lemma debug_build_casts_are_exact_witness :
  (forall w n,
      In (Ev_deflate w n)
         (events (Compressor.compress (codec := Stored.codec)
                    (build := debug_build) (heap := roomy) std_string
                    (Compressor.new 6 100) 2 [] hello 5)) ->
      w = 5 / 2 + 1024 /\ wrap32 5 = 5) /\
  (forall w c m n,
      In (Ev_inflate w c m n)
         (events (Decompressor.decompress (codec := Stored.codec)
                    (build := debug_build) (heap := roomy) std_string
                    (Decompressor.new 100) 2 [] hello 5)) ->
      w = 2 * 5 /\ wrap32 5 = 5).
Proof.
  apply (debug_build_casts_are_exact (codec := Stored.codec)
           (build := debug_build) (heap := roomy) std_string (Compressor.new 6 100)
           (Decompressor.new 100) 2 [] hello 5).
  - reflexivity.
  - vm_compute. split; discriminate.
Defined.



(** ** The sniffer on what [compress] returns *)




(** ** The work of [compress] *)




(** ** The work of [decompress] *)

Lemma decompress_loop_work {codec : Zlib} {heap : Heap}
    (gzip_of : Z -> list byte -> list byte)
    (inflating : inflate_state -> list byte -> list byte -> Prop)
    (laws : inflate_finishes codec gzip_of inflating)
    (kind : container) (fuel : nat) :
  forall (rest : list byte) (max size : Z) (s : z_stream inflate_state)
         (out : list byte) (su : Z),
    0 < size -> 2 * size <= UINT_MAX ->
    inflating (state s) (readable s) rest ->
    0 <= avail_in s <= UINT_MAX ->
    0 <= su ->
    su + (size_of rest / (2 * size) + 1) * (2 * size) <= max ->
    max <= SIZE_MAX ->
    grants heap (su + (size_of rest / (2 * size) + 1) * (2 * size)) ->
    size_of rest / (2 * size) < Z.of_nat fuel ->
    let r := Decompressor.decompress_loop kind fuel max size s out su in
    Z.of_nat (inflate_calls (events r)) = size_of rest / (2 * size) + 1 /\
    written_by_inflate (events r) = size_of rest /\
    (forall n, In (Ev_resize n) (events r) ->
               0 <= n <= su + (size_of rest / (2 * size) + 1) * (2 * size)).
Proof.
  induction fuel as [|fuel IH];
    intros rest max size s out su Hsize Hw Hi Ha Hsu Hceil Hmax Hheap Hfuel.
  - exfalso. pose proof (size_of_nonneg rest).
    assert (0 <= size_of rest / (2 * size)) by (apply Z.div_pos; lia).
    lia.
  - set (W := 2 * size) in *.
    pose proof (size_of_nonneg rest) as Hrest.
    assert (Hq : 0 <= size_of rest / W) by (apply Z.div_pos; lia).
    cbn [Decompressor.decompress_loop].
    fold W. unfold inflate. cbn [set_avail_out avail_out state].
    change (readable (set_avail_out s (wrap32 (wrap64 W)))) with (readable s).
    rewrite !(wrap64_small W) by (unfold UINT_MAX, SIZE_MAX in *; lia).
    rewrite !(wrap32_small W) by lia.
    rewrite !(wrap64_small (su + W)) by (unfold SIZE_MAX in *; nia).
    replace (max <? su + W) with false by (symmetry; apply Z.ltb_ge; nia).
    rewrite (resize_granted _ (su + W) out Hheap) by nia.
    rewrite (has_element0_nonempty kind (resize (su + W) out))
      by (rewrite size_of_resize; lia).
    destruct (inflating_step _ _ _ laws _ _ _ W Hi ltac:(lia))
      as (Hok & Hp & Hc & Hi').
    set (r := inflate_ (state s) (readable s) W Z_FINISH) in *.
    rewrite Hok.
    assert (Hsz : size_of (produced r) = Z.min W (size_of rest))
      by (rewrite Hp; apply size_of_firstn; lia).
    assert (Ha2 : avail_out (advance (set_avail_out s W) r)
                  = W - size_of (produced r)).
    { cbn [advance avail_out set_avail_out]. apply wrap32_small. lia. }
    rewrite Ha2.
    replace (W - (W - size_of (produced r))) with (size_of (produced r))
      by lia.
    rewrite (wrap64_small (size_of (produced r)))
      by (unfold SIZE_MAX, UINT_MAX in *; lia).
    rewrite !(wrap64_small (su + size_of (produced r)))
      by (unfold SIZE_MAX in *; nia).
    destruct (readable_advance (set_avail_out s W) r Ha Hc) as (Hrd & Ha').
    change (readable (set_avail_out s W)) with (readable s) in Hrd.
    cbn [after events app].
    change (inflate_calls (Ev_resize ?n :: Ev_inflate ?w ?c ?m ?k :: ?l))
      with (S (inflate_calls l)).
    cbn [written_by_inflate].
    destruct (Z.eqb_spec (W - size_of (produced r)) 0) as [Hfull|Hlast].
    + assert (Hge : W <= size_of rest) by lia.
      assert (Hsz' : size_of (skipn (Z.to_nat W) rest) = size_of rest - W)
        by (rewrite size_of_skipn; lia).
      assert (Hdiv : size_of (skipn (Z.to_nat W) rest) / W
                     = size_of rest / W - 1).
      { rewrite Hsz'.
        replace (size_of rest - W) with (size_of rest + (-1) * W) by lia.
        rewrite Z.div_add by lia. lia. }
      specialize (IH (skipn (Z.to_nat W) rest) max size
                    (advance (set_avail_out s W) r)
                    (store su (produced r) (resize (su + W) out))
                    (su + size_of (produced r))).
      fold W in IH. rewrite Hrd, Hdiv in IH.
      cbn [advance state] in IH.
      specialize (IH Hsize Hw Hi' Ha' ltac:(lia) ltac:(nia) Hmax
                    ltac:(apply (grants_le _ _ Hheap); nia) ltac:(lia)).
      cbn zeta in IH. destruct IH as (IHc & IHw & IHr).
      rewrite Nat2Z.inj_succ, IHc, IHw, Hsz'.
      split; [lia|]. split; [lia|].
      intros n [H|[H|H]]; [injection H as <-; nia | discriminate |].
      specialize (IHr n H). nia.
    + assert (Hlt : size_of rest < W) by lia.
      rewrite (Z.div_small (size_of rest) W) by lia.
      rewrite (resize_within (su + size_of (produced r)))
        by (rewrite size_of_store; rewrite ?size_of_resize; lia).
      cbn [events].
      change (inflate_calls [Ev_resize (su + size_of (produced r));
                             Ev_inflateEnd]) with 0%nat.
      cbn [written_by_inflate].
      split; [reflexivity|]. split; [lia|].
      intros n [H|[H|[H|[H|[]]]]];
        [injection H as <-; lia | discriminate | injection H as <-; lia
        | discriminate].
Qed.

(** X12. The work of [Decompressor::decompress] on the stream of [data],
    when the ceiling and the free store have room: with [n] the size of the
    data and [s] the size of the stream, the loop calls [inflate] exactly
    [n / (2 * s) + 1] times, the calls write [n] bytes between them, and
    the output container never grows beyond [(n / (2 * s) + 1) * (2 * s)]
    bytes. *)
Theorem decompress_work {codec : Zlib} {build : Build} {heap : Heap}
    (gzip_of : Z -> list byte -> list byte)
    (inflating : inflate_state -> list byte -> list byte -> Prop)
    (laws : inflate_finishes codec gzip_of inflating)
    (kind : container) (decomp : Decompressor.t) (fuel : nat)
    (out data : list byte) (level : Z) (dst : deflate_state)
    (st : inflate_state) :
  deflateInit2_ level Z_DEFLATED Compressor.window_bits Compressor.mem_level
    Z_DEFAULT_STRATEGY = Some dst ->
  inflateInit2_ Decompressor.window_bits = Some st ->
  let stream := gzip_of level data in
  let rounds := size_of data / (2 * size_of stream) + 1 in
  0 < size_of stream ->
  Decompressor.max_ decomp <= UINT_MAX ->
  rounds * (2 * size_of stream) <= Decompressor.max_ decomp ->
  grants heap (rounds * (2 * size_of stream)) ->
  size_of data / (2 * size_of stream) < Z.of_nat fuel ->
  let r := Decompressor.decompress kind decomp fuel out stream
             (size_of stream) in
  Z.of_nat (inflate_calls (events r)) = rounds /\
  written_by_inflate (events r) = size_of data /\
  (forall n, In (Ev_resize n) (events r) ->
             0 <= n <= rounds * (2 * size_of stream)).
Proof.
  intros Hdinit Hinit stream rounds Hpos Hu Hceil Hheap Hfuel.
  unfold Decompressor.decompress. rewrite Hinit.
  pose proof (size_of_nonneg data) as Hdata.
  assert (Hq : 0 <= size_of data / (2 * size_of stream))
    by (apply Z.div_pos; lia).
  assert (H2 : 2 * size_of stream <= Decompressor.max_ decomp)
    by (unfold rounds in Hceil; nia).
  replace (size_of stream * 2) with (2 * size_of stream) by lia.
  rewrite (wrap64_small (2 * size_of stream))
    by (unfold SIZE_MAX, UINT_MAX in *; lia).
  replace (UINT_MAX <? 2 * size_of stream) with false
    by (symmetry; apply Z.ltb_ge; lia).
  rewrite andb_false_r.
  replace (Decompressor.max_ decomp <? size_of stream) with false
    by (symmetry; apply Z.ltb_ge; lia).
  replace (Decompressor.max_ decomp <? 2 * size_of stream) with false
    by (symmetry; apply Z.ltb_ge; lia).
  cbn [orb].
  set (s := set_avail_in _ _).
  assert (Hrd : readable s = stream).
  { unfold readable, s. cbn [set_avail_in avail_in next_in].
    rewrite wrap32_small by lia. apply firstn_all2. unfold size_of. lia. }
  destruct (decompress_loop_work gzip_of inflating laws kind fuel data
              (Decompressor.max_ decomp) (size_of stream) s out 0)
    as (Hc & Hw & Hr); try lia.
  - rewrite Hrd. cbn [state s set_avail_in].
    apply (inflating_init _ _ _ laws level dst st data Hdinit Hinit).
  - cbn [avail_in s set_avail_in]. apply wrap32_range.
  - unfold SIZE_MAX, UINT_MAX in *. lia.
  - rewrite Z.add_0_l. exact Hheap.
  - cbn [after events app].
    change (inflate_calls (Ev_inflateInit2 true :: ?l))
      with (inflate_calls l).
    cbn [written_by_inflate].
    split; [exact Hc|]. split; [exact Hw|].
    intros n [H|H]; [discriminate|].
    specialize (Hr n H). unfold rounds. lia.
Qed.

Lemma decompress_work_witness :
  let stream := Stored.gzip_of 6 (repeat x61 100) in
  let r := Decompressor.decompress (codec := Stored.codec)
             (build := release_build) (heap := roomy) std_string (Decompressor.new 1000) 1
             [] stream (size_of stream) in
  Z.of_nat (inflate_calls (events r))
  = size_of (repeat x61 100) / (2 * size_of stream) + 1 /\
  written_by_inflate (events r) = size_of (repeat x61 100) /\
  (forall n, In (Ev_resize n) (events r) ->
             0 <= n <= (size_of (repeat x61 100) / (2 * size_of stream) + 1)
                       * (2 * size_of stream)).
Proof.
  apply (decompress_work (codec := Stored.codec) (build := release_build) (heap := roomy)
           Stored.gzip_of Stored.inflating stored_inflate_finishes
           std_string (Decompressor.new 1000) 1 [] (repeat x61 100) 6
           Stored.Fresh Stored.Start).
  - reflexivity.
  - reflexivity.
  - vm_compute. reflexivity.
  - vm_compute. discriminate.
  - vm_compute. discriminate.
  - apply roomy_grants. vm_compute. discriminate.
  - vm_compute. reflexivity.
Defined.

(** ** The size [decompress] reports *)

Lemma decompress_loop_written {codec : Zlib} {heap : Heap}
    (window : window_respected codec) (kind : container) (fuel : nat) :
  forall (max size : Z) (s : z_stream inflate_state) (out : list byte)
         (su : Z),
    max <= PTRDIFF_MAX ->
    0 <= su <= max ->
    0 <= size -> 2 * size <= UINT_MAX -> 2 * size <= max ->
    let r := Decompressor.decompress_loop kind fuel max size s out su in
    outcome r = Returns ->
    size_of (output r) = su + written_by_inflate (events r).
Proof.
  induction fuel as [|fuel IH];
    intros max size s out su Hmax Hsu Hsize Hu HW r Hret; subst r.
  - discriminate Hret.
  - cbn [Decompressor.decompress_loop] in *.
    set (W := 2 * size) in *.
    rewrite !(wrap64_small W) in *
      by (unfold SIZE_MAX, UINT_MAX in *; lia).
    rewrite (wrap32_small W) in * by lia.
    rewrite (wrap64_small (su + W)) in *
      by (unfold SIZE_MAX, PTRDIFF_MAX in *; lia).
    destruct (Z.ltb_spec max (su + W)) as [Hover|Hfits];
      [discriminate Hret|].
    destruct (resize_throws (su + W) out) as [e|]; [discriminate Hret|].
    destruct (has_element0 kind (resize (su + W) out));
      [|discriminate Hret].
    unfold inflate in *. cbn [set_avail_out avail_out state] in *.
    change (readable (set_avail_out s W)) with (readable s) in *.
    destruct (avail_out_after_inflate window s W ltac:(lia)) as (Ha2 & Hp).
    set (r := inflate_ (state s) (readable s) W Z_FINISH) in *.
    rewrite Ha2 in *.
    cbn [after outcome output events app written_by_inflate] in *.
    destruct (Decompressor.is_failure (ret r)).
    + destruct (msg (advance (set_avail_out s W) r)); discriminate Hret.
    + replace (W - (W - size_of (produced r))) with (size_of (produced r))
        in * by lia.
      rewrite (wrap64_small (size_of (produced r))) in *
        by (unfold SIZE_MAX, UINT_MAX in *; lia).
      rewrite !(wrap64_small (su + size_of (produced r))) in *
        by (unfold SIZE_MAX, PTRDIFF_MAX in *; lia).
      destruct (W - size_of (produced r) =? 0).
      * rewrite IH; [lia | exact Hmax | lia | exact Hsize | exact Hu
                    | exact HW | exact Hret].
      * destruct (resize_throws _ _) as [e|]; [discriminate Hret|].
        cbn [output events written_by_inflate].
        rewrite size_of_resize by lia. lia.
Qed.

(** X13. The size [Decompressor::decompress] gives its result is the
    number of bytes [inflate] wrote: for every codec that respects its
    window, when [2 * size] fits an [unsigned int] and the ceiling is at
    most [PTRDIFF_MAX], a call that returns leaves a container of exactly
    as many bytes as the calls of [inflate] have written between them. *)
Theorem decompress_size_is_what_inflate_wrote {codec : Zlib} {build : Build} {heap : Heap}
    (window : window_respected codec) (kind : container)
    (decomp : Decompressor.t) (fuel : nat) (out data : list byte)
    (size : Z) :
  0 <= size -> 2 * size <= UINT_MAX ->
  Decompressor.max_ decomp <= PTRDIFF_MAX ->
  let r := Decompressor.decompress kind decomp fuel out data size in
  outcome r = Returns ->
  size_of (output r) = written_by_inflate (events r).
Proof.
  intros Hsize Hu Hmax r. subst r. unfold Decompressor.decompress.
  destruct (inflateInit2_ Decompressor.window_bits) as [st|];
    [|discriminate].
  cbn [after outcome output events app written_by_inflate].
  replace (size * 2) with (2 * size) by lia.
  rewrite (wrap64_small (2 * size))
    by (unfold SIZE_MAX, UINT_MAX in *; lia).
  destruct (DEBUG && (UINT_MAX <? 2 * size))%bool; [discriminate|].
  destruct (Z.ltb_spec (Decompressor.max_ decomp) size);
    [discriminate|].
  destruct (Z.ltb_spec (Decompressor.max_ decomp) (2 * size));
    [discriminate|].
  cbn [orb]. intros Hret.
  rewrite (decompress_loop_written window kind fuel
             (Decompressor.max_ decomp) size _ out 0 Hmax ltac:(lia)
             Hsize Hu ltac:(lia) Hret).
  lia.
Qed.

Lemma decompress_size_is_what_inflate_wrote_witness :
  let r := decompress_vector (codec := Stored.codec)
             (build := release_build) (heap := roomy) 1 (Stored.gzip_of 6 hello) 100 in
  size_of (output r) = written_by_inflate (events r).
Proof.
  apply (decompress_size_is_what_inflate_wrote (codec := Stored.codec)
           (build := release_build) (heap := roomy) stored_window_respected std_vector
           (Decompressor.new 100) 1 [] (Stored.gzip_of 6 hello)
           (size_of (Stored.gzip_of 6 hello))).
  - vm_compute. discriminate.
  - vm_compute. discriminate.
  - vm_compute. discriminate.
  - vm_compute. reflexivity.
Defined.

(** ** A stream that does not end *)

(** X14. [Decompressor::decompress] does not ask for [Z_STREAM_END]: when
    [inflate] has used up the input without reaching the end of the stream
    and says so by [Z_BUF_ERROR], with room left in its window, the call
    returns as it does on a complete stream, and the result is the data
    decoded so far. A truncated stream is decompressed to a truncated
    result without an exception (the free store granting the
    container). *)
Theorem decompress_accepts_unfinished_stream {codec : Zlib} {build : Build} {heap : Heap}
    (kind : container) (decomp : Decompressor.t) (fuel : nat)
    (out data : list byte) (size : Z) (st : inflate_state) :
  inflateInit2_ Decompressor.window_bits = Some st ->
  0 < size -> 2 * size <= UINT_MAX ->
  2 * size <= Decompressor.max_ decomp <= PTRDIFF_MAX ->
  grants heap (2 * size) ->
  let r := inflate_ st (firstn (Z.to_nat size) data) (2 * size) Z_FINISH in
  ret r = Z_BUF_ERROR ->
  size_of (produced r) < 2 * size ->
  returned (Decompressor.decompress kind decomp (S fuel) out data size)
  = Some (produced r).
Proof.
  intros Hinit Hsize Hu Hmax Hheap r Hret Hroom.
  pose proof (size_of_nonneg (produced r)) as Hp.
  unfold Decompressor.decompress. rewrite Hinit.
  replace (size * 2) with (2 * size) by lia.
  rewrite (wrap64_small (2 * size))
    by (unfold SIZE_MAX, UINT_MAX in *; lia).
  replace (UINT_MAX <? 2 * size) with false
    by (symmetry; apply Z.ltb_ge; lia).
  rewrite andb_false_r.
  replace (Decompressor.max_ decomp <? size) with false
    by (symmetry; apply Z.ltb_ge; lia).
  replace (Decompressor.max_ decomp <? 2 * size) with false
    by (symmetry; apply Z.ltb_ge; lia).
  cbn [orb Decompressor.decompress_loop].
  rewrite !(wrap64_small (2 * size))
    by (unfold SIZE_MAX, UINT_MAX in *; lia).
  rewrite (wrap32_small (2 * size)) by lia.
  rewrite (wrap32_small size) by lia.
  rewrite Z.add_0_l.
  rewrite !(wrap64_small (2 * size))
    by (unfold SIZE_MAX, UINT_MAX in *; lia).
  replace (Decompressor.max_ decomp <? 2 * size) with false
    by (symmetry; apply Z.ltb_ge; lia).
  rewrite (resize_granted _ (2 * size) out Hheap) by lia.
  rewrite (has_element0_nonempty kind (resize (2 * size) out))
    by (rewrite size_of_resize; lia).
  unfold inflate, readable.
  cbn [set_avail_out set_avail_in avail_out avail_in next_in state].
  fold r. rewrite Hret.
  cbn [Decompressor.is_failure zret_eqb negb andb advance avail_out
       set_avail_out].
  rewrite (wrap32_small (2 * size - size_of (produced r))) by lia.
  replace (2 * size - size_of (produced r) =? 0) with false
    by (symmetry; apply Z.eqb_neq; lia).
  replace (2 * size - (2 * size - size_of (produced r)))
    with (size_of (produced r)) by lia.
  rewrite !(wrap64_small (size_of (produced r)))
    by (unfold SIZE_MAX, UINT_MAX in *; lia).
  rewrite !Z.add_0_l.
  rewrite !(wrap64_small (size_of (produced r)))
    by (unfold SIZE_MAX, UINT_MAX in *; lia).
  rewrite resize_within
    by (rewrite size_of_store; rewrite ?size_of_resize; lia).
  unfold returned. cbn [after outcome output].
  f_equal. unfold store. cbn [Z.to_nat firstn app Nat.add].
  apply resize_prefix.
Qed.

Lemma decompress_accepts_unfinished_stream_witness :
  returned (decompress_string (codec := Stored.codec)
              (build := release_build) (heap := roomy) 1
              (removelast (Stored.gzip_of 6 hello)) 100)
  = Some hello.
Proof.
  exact (decompress_accepts_unfinished_stream (codec := Stored.codec)
           (build := release_build) (heap := roomy) std_string (Decompressor.new 100) 0
           [] (removelast (Stored.gzip_of 6 hello)) 12 Stored.Start
           eq_refl eq_refl ltac:(vm_compute; discriminate)
           ltac:(vm_compute; split; discriminate)
           ltac:(apply roomy_grants; vm_compute; discriminate)
           eq_refl eq_refl).
Defined.

(** ** The return codes the drivers do not look at *)

Lemma compress_loop_ignores_ret (codec : Zlib) {heap : Heap}
    (fd fi : zret -> zret) (kind : container) (fuel : nat) :
  forall (size : Z) (s : z_stream (@deflate_state codec)) (out : list byte)
         (sc : Z),
    Compressor.compress_loop (codec := with_ret codec fd fi) kind fuel size
      s out sc
    = Compressor.compress_loop (codec := codec) kind fuel size s out sc.
Proof.
  induction fuel as [|fuel IH]; intros size s out sc; [reflexivity|].
  cbn [Compressor.compress_loop].
  destruct (if size_of out <? _ then _ else None) as [e|]; [reflexivity|].
  destruct (has_element0 kind _); [|reflexivity].
  unfold deflate.
  cbn [with_ret deflate_ ret consumed produced step_msg step_state advance
       avail_out set_avail_out].
  rewrite IH. reflexivity.
Qed.

(** X15. [Compressor::compress] does not look at what [deflate] returns:
    a codec whose [deflate] reports other return codes, and does everything
    else as before, gives the same run, with the same result, the same
    calls and the same outcome. *)
Theorem compress_ignores_deflate_ret (codec : Zlib) {build : Build}
    {heap : Heap} (fd fi : zret -> zret) (kind : container)
    (comp : Compressor.t) (fuel : nat) (out data : list byte) (size : Z) :
  Compressor.compress (codec := with_ret codec fd fi) kind comp fuel out
    data size
  = Compressor.compress (codec := codec) kind comp fuel out data size.
Proof.
  unfold Compressor.compress.
  destruct (DEBUG && (UINT_MAX <? size))%bool; [reflexivity|].
  destruct (Compressor.max_ comp <? size); [reflexivity|].
  cbn [with_ret deflateInit2_].
  destruct (deflateInit2_ _ _ _ _ _) as [st|]; [|reflexivity].
  f_equal. apply compress_loop_ignores_ret.
Qed.

Lemma decompress_loop_ignores_ret (codec : Zlib) {heap : Heap}
    (fd fi : zret -> zret)
    (same : forall c,
        Decompressor.is_failure (fi c) = Decompressor.is_failure c)
    (kind : container) (fuel : nat) :
  forall (max size : Z) (s : z_stream (@inflate_state codec))
         (out : list byte) (su : Z),
    let r' := Decompressor.decompress_loop (codec := with_ret codec fd fi)
                kind fuel max size s out su in
    let r := Decompressor.decompress_loop (codec := codec) kind fuel max
               size s out su in
    outcome r' = outcome r /\ output r' = output r.
Proof.
  induction fuel as [|fuel IH]; intros max size s out su;
    [split; reflexivity|].
  cbn [Decompressor.decompress_loop].
  destruct (max <? _); [split; reflexivity|].
  destruct (resize_throws _ out) as [e|]; [split; reflexivity|].
  destruct (has_element0 kind _); [|split; reflexivity].
  unfold inflate.
  cbn [with_ret inflate_ ret consumed produced step_msg step_state advance
       avail_out set_avail_out msg after outcome output].
  rewrite same.
  destruct (Decompressor.is_failure _).
  - destruct (step_msg _); split; reflexivity.
  - destruct (_ =? 0); [apply IH | split; reflexivity].
Qed.

(** X16. Of what [inflate] returns, [Decompressor::decompress] takes in
    only whether it is one of [Z_STREAM_END], [Z_OK] and [Z_BUF_ERROR] or
    not: a codec whose [inflate] reports other codes on the same side of
    that line, and does everything else as before, gives the same outcome
    and the same result. The driver cannot tell a stream that has ended from
    one that has not. *)
Theorem decompress_reads_ret_as_failure_or_not (codec : Zlib)
    {build : Build} {heap : Heap} (fd fi : zret -> zret) (kind : container)
    (decomp : Decompressor.t) (fuel : nat) (out data : list byte)
    (size : Z) :
  (forall c, Decompressor.is_failure (fi c) = Decompressor.is_failure c) ->
  let r' := Decompressor.decompress (codec := with_ret codec fd fi) kind
              decomp fuel out data size in
  let r := Decompressor.decompress (codec := codec) kind decomp fuel out
             data size in
  outcome r' = outcome r /\ output r' = output r.
Proof.
  intros same. unfold Decompressor.decompress.
  cbn [with_ret inflateInit2_].
  destruct (inflateInit2_ Decompressor.window_bits) as [st|];
    [|split; reflexivity].
  cbn [after outcome output].
  destruct (DEBUG && (UINT_MAX <? wrap64 (size * 2)))%bool;
    [split; reflexivity|].
  destruct ((Decompressor.max_ decomp <? size)
            || (Decompressor.max_ decomp <? wrap64 (size * 2)))%bool;
    [split; reflexivity|].
  apply (decompress_loop_ignores_ret codec fd fi same).
Qed.

Lemma decompress_reads_ret_as_failure_or_not_witness :
  let always_ok := fun c : zret =>
    if Decompressor.is_failure c then c else Z_OK in
  let r' := Decompressor.decompress
              (codec := with_ret Stored.codec always_ok always_ok)
              (build := release_build) (heap := roomy) std_string (Decompressor.new 100)
              1 [] (Stored.gzip_of 6 hello) 13 in
  let r := Decompressor.decompress (codec := Stored.codec)
             (build := release_build) (heap := roomy) std_string (Decompressor.new 100)
             1 [] (Stored.gzip_of 6 hello) 13 in
  outcome r' = outcome r /\ output r' = output r.
Proof.
  apply (decompress_reads_ret_as_failure_or_not Stored.codec
           (build := release_build) (heap := roomy)
           (fun c : zret => if Decompressor.is_failure c then c else Z_OK)
           (fun c : zret => if Decompressor.is_failure c then c else Z_OK)
           std_string (Decompressor.new 100) 1 [] (Stored.gzip_of 6 hello)
           13).
  intros c. destruct c; reflexivity.
Defined.

(** ** The exceptions of [compress] *)

(** X17. The exceptions of [Compressor::compress], for every codec, input,
    ceiling, build and free store. A [std::runtime_error] is thrown only
    before the loop: it carries one of the three messages of the driver
    (the [DEBUG] size check, the ceiling, the failed [deflateInit2]), and
    the call has made no call of [deflate] and no resize and has left the
    output container as it was. Every other exception is one of [resize],
    [std::length_error] or [std::bad_alloc], and leaves the call after
    [deflateInit2] has succeeded. *)
Theorem compress_exceptions {codec : Zlib} {build : Build} {heap : Heap}
    (kind : container) (comp : Compressor.t) (fuel : nat)
    (out data : list byte) (size : Z) (e : exception) :
  let r := Compressor.compress kind comp fuel out data size in
  outcome r = Throws e ->
  ((e = runtime_error size_not_unsigned \/
    e = runtime_error size_too_large \/
    e = runtime_error deflate_init_failed) /\
   output r = out /\
   no_resize r /\
   deflate_calls (events r) = O) \/
  ((e = length_error \/ e = bad_alloc) /\
   exists pre,
     events r = Ev_deflateInit2 (Compressor.level_ comp) true :: pre).
Proof.
  intros r. subst r. unfold Compressor.compress, no_resize.
  destruct (DEBUG && (UINT_MAX <? size))%bool.
  { intros H. injection H as <-. left. repeat split; auto. }
  destruct (Compressor.max_ comp <? size).
  { intros H. injection H as <-. left. repeat split; auto. }
  destruct (deflateInit2_ _ _ _ _ _) as [st|].
  - cbn [after outcome events app]. intros H. right.
    split; [|eexists; reflexivity].
    exact (proj1 (compress_loop_release kind fuel size _ out 0) e H).
  - intros H. injection H as <-. left. repeat split; auto.
    intros n [H|[]]. discriminate.
Qed.

Lemma compress_exceptions_witness :
  let r := Compressor.compress (codec := Stored.codec)
             (build := release_build) (heap := heap_of 1000) std_vector
             (Compressor.new 6 default_max_bytes) 3 [x61; x62] hello 5 in
  ((bad_alloc = runtime_error size_not_unsigned \/
    bad_alloc = runtime_error size_too_large \/
    bad_alloc = runtime_error deflate_init_failed) /\
   output r = [x61; x62] /\
   no_resize r /\
   deflate_calls (events r) = O) \/
  ((bad_alloc = length_error \/ bad_alloc = bad_alloc) /\
   exists pre, events r = Ev_deflateInit2 6 true :: pre).
Proof.
  apply (compress_exceptions (codec := Stored.codec)
           (build := release_build) (heap := heap_of 1000) std_vector
           (Compressor.new 6 default_max_bytes) 3 [x61; x62] hello 5
           bad_alloc).
  reflexivity.
Defined.
